(** * Ghost Rover 3: RTCM relay from the EVK's ZED-F9P to the HC-12 radio

    A shallow embedding of the sketch
    [DougFoster_Ghost_Rover_EVK_RTCM_relay.ino], version 3.0.10:
    the relay [checkRTCMtoRadio], the type extraction
    [rtcm3GetMessageType], the LED switch [updateLED] with the task
    [radioRtcmLEDtask] it resumes, and the console [checkSerialUSB].

    Conventions.
    - A C [char] is an [ascii]: eight bits, unsigned as on the ESP32-C6
      (RISC-V), so that [serialChar == 0xd3] can hold.  [code c] is its
      value as an integer.
    - [uint8_t], [uint16_t] and [size_t] are [Z] with the wrap-around of the
      increment written out.
    - The globals and the [static] locals of the sketch are the fields of
      one record, [State], together with what the three serial links hold and
      the program point ([pc]) at which control stands.
    - Everything the sketch does to the outside is appended to [trace], in
      program order. *)

From Stdlib Require Import ZArith Lia List Ascii String Bool.
From stdpp Require Import base list.
Import ListNotations.

Local Open Scope Z_scope.

(** ** Characters and constants *)

Definition code (c : ascii) : Z := Z.of_N (N_of_ascii c).

Definition NUL : ascii := "000"%char.
Definition LF : ascii := "010"%char.
Definition CR : ascii := "013"%char.
(** [0xd3], the RTCM3 preamble. *)
Definition xD3 : ascii := "211"%char.
Definition EXIT_TEST : ascii := "!"%char.
Definition QUERY : ascii := "?"%char.

Definition NUM_COMMANDS : Z := 4.
Definition COMMANDS : list string :=
  ["testLEDr"; "testRad"; "debugRad"; "reset"]%string.

(** [sizeof(rtcmSentence)] and [sizeof(command)]. *)
Definition RTCM_SIZE : Z := 300.
Definition COMMAND_SIZE : Z := 11.

Definition uint16 (z : Z) : Z := z mod 65536.
Definition size_t (z : Z) : Z := z mod 4294967296.

Definition nl : string := String LF EmptyString.
Definition quote : string := String "034"%char EmptyString.

(** ** Effects *)

Inductive Buffer := RtcmSentence | Command.

Inductive Event :=
| Rx0 (c : ascii)                  (* Serial0.read() gave c *)
| Tx1 (c : ascii)                  (* Serial1.write(c) *)
| Print (s : string)               (* Serial.print(s), a printf once formatted *)
| Println (s : string)             (* Serial.println(s) *)
| PrintFrame (msg_type : option Z) (count : Z) (bytes : list ascii)
                                   (* the debugRad dump of one sentence *)
| LedWrite (high : bool)           (* digitalWrite(LED_RADIO, _) *)
| TaskResume                       (* vTaskResume(radioRtcmLEDtaskHandle) *)
| SetPin (high : bool)             (* digitalWrite(HC12_SET, _) *)
| Delay (ms : Z)
| Restart                          (* esp_restart() *)
| StoreOutOfBounds (b : Buffer) (index : Z).
                                   (* a store past the end of an array *)

(** Where control stands between two steps of the model: in [loop()], inside
    one of the two [while (true)] test loops of [checkSerialUSB] (waiting for
    console input), or nowhere after [esp_restart()].  The model follows the
    sketch up to that call and no further: that the chip then starts again
    with [setup()] is not part of it. *)
Inductive Pc := InLoop | InRadioTest | InLedTest | Restarted.

Record State := mkState {
  (* globals *)
  serialChar : ascii;
  rtcmSentence : list ascii;
  testLEDr : bool;
  testRad : bool;
  debugRad : bool;
  reset : bool;
  (* static locals of checkSerialUSB *)
  command : list ascii;
  posn : Z;
  (* static locals of checkRTCMtoRadio *)
  preamble : Z;
  byteCount : Z;
  (* the links: bytes waiting to be read *)
  usb_rx : list ascii;
  serial0_rx : list ascii;
  (* what the HC-12 has sent by the end of each delay(200), in turn *)
  hc12_replies : list (list ascii);
  pc : Pc;
  trace : list Event
}.

Definition set_serialChar (c : ascii) (st : State) : State :=
  mkState c (rtcmSentence st) (testLEDr st) (testRad st) (debugRad st)
    (reset st) (command st) (posn st) (preamble st) (byteCount st)
    (usb_rx st) (serial0_rx st) (hc12_replies st) (pc st) (trace st).
Definition set_rtcmSentence (b : list ascii) (st : State) : State :=
  mkState (serialChar st) b (testLEDr st) (testRad st) (debugRad st)
    (reset st) (command st) (posn st) (preamble st) (byteCount st)
    (usb_rx st) (serial0_rx st) (hc12_replies st) (pc st) (trace st).
Definition set_testLEDr (v : bool) (st : State) : State :=
  mkState (serialChar st) (rtcmSentence st) v (testRad st) (debugRad st)
    (reset st) (command st) (posn st) (preamble st) (byteCount st)
    (usb_rx st) (serial0_rx st) (hc12_replies st) (pc st) (trace st).
Definition set_testRad (v : bool) (st : State) : State :=
  mkState (serialChar st) (rtcmSentence st) (testLEDr st) v (debugRad st)
    (reset st) (command st) (posn st) (preamble st) (byteCount st)
    (usb_rx st) (serial0_rx st) (hc12_replies st) (pc st) (trace st).
Definition set_debugRad (v : bool) (st : State) : State :=
  mkState (serialChar st) (rtcmSentence st) (testLEDr st) (testRad st) v
    (reset st) (command st) (posn st) (preamble st) (byteCount st)
    (usb_rx st) (serial0_rx st) (hc12_replies st) (pc st) (trace st).
Definition set_reset (v : bool) (st : State) : State :=
  mkState (serialChar st) (rtcmSentence st) (testLEDr st) (testRad st)
    (debugRad st) v (command st) (posn st) (preamble st) (byteCount st)
    (usb_rx st) (serial0_rx st) (hc12_replies st) (pc st) (trace st).
Definition set_command (b : list ascii) (st : State) : State :=
  mkState (serialChar st) (rtcmSentence st) (testLEDr st) (testRad st)
    (debugRad st) (reset st) b (posn st) (preamble st) (byteCount st)
    (usb_rx st) (serial0_rx st) (hc12_replies st) (pc st) (trace st).
Definition set_posn (n : Z) (st : State) : State :=
  mkState (serialChar st) (rtcmSentence st) (testLEDr st) (testRad st)
    (debugRad st) (reset st) (command st) n (preamble st) (byteCount st)
    (usb_rx st) (serial0_rx st) (hc12_replies st) (pc st) (trace st).
Definition set_preamble (n : Z) (st : State) : State :=
  mkState (serialChar st) (rtcmSentence st) (testLEDr st) (testRad st)
    (debugRad st) (reset st) (command st) (posn st) n (byteCount st)
    (usb_rx st) (serial0_rx st) (hc12_replies st) (pc st) (trace st).
Definition set_byteCount (n : Z) (st : State) : State :=
  mkState (serialChar st) (rtcmSentence st) (testLEDr st) (testRad st)
    (debugRad st) (reset st) (command st) (posn st) (preamble st) n
    (usb_rx st) (serial0_rx st) (hc12_replies st) (pc st) (trace st).
Definition set_usb_rx (q : list ascii) (st : State) : State :=
  mkState (serialChar st) (rtcmSentence st) (testLEDr st) (testRad st)
    (debugRad st) (reset st) (command st) (posn st) (preamble st)
    (byteCount st) q (serial0_rx st) (hc12_replies st) (pc st) (trace st).
Definition set_serial0_rx (q : list ascii) (st : State) : State :=
  mkState (serialChar st) (rtcmSentence st) (testLEDr st) (testRad st)
    (debugRad st) (reset st) (command st) (posn st) (preamble st)
    (byteCount st) (usb_rx st) q (hc12_replies st) (pc st) (trace st).
Definition set_hc12_replies (r : list (list ascii)) (st : State) : State :=
  mkState (serialChar st) (rtcmSentence st) (testLEDr st) (testRad st)
    (debugRad st) (reset st) (command st) (posn st) (preamble st)
    (byteCount st) (usb_rx st) (serial0_rx st) r (pc st) (trace st).
Definition set_pc (p : Pc) (st : State) : State :=
  mkState (serialChar st) (rtcmSentence st) (testLEDr st) (testRad st)
    (debugRad st) (reset st) (command st) (posn st) (preamble st)
    (byteCount st) (usb_rx st) (serial0_rx st) (hc12_replies st) p (trace st).
Definition set_trace (t : list Event) (st : State) : State :=
  mkState (serialChar st) (rtcmSentence st) (testLEDr st) (testRad st)
    (debugRad st) (reset st) (command st) (posn st) (preamble st)
    (byteCount st) (usb_rx st) (serial0_rx st) (hc12_replies st) (pc st) t.

Definition emit (e : Event) (st : State) : State :=
  set_trace (trace st ++ [e]) st.
Definition emits (es : list Event) (st : State) : State :=
  set_trace (trace st ++ es) st.

(** [memset(buf, '\0', sizeof(buf))]. *)
Definition zeroed (size : Z) : list ascii := replicate (Z.to_nat size) NUL.

(** [initVars()], with nothing waiting on the links. *)
Definition initial : State :=
  mkState NUL (zeroed RTCM_SIZE) false false false false
    (zeroed COMMAND_SIZE) 0 0 0 [] [] [] InLoop [].

(** ** [updateLED] *)

Definition updateLED (ledR : ascii) (st : State) : State :=
  if Ascii.eqb ledR "0" then emit (LedWrite false) st
  else if Ascii.eqb ledR "1" then emit (LedWrite true) st
  else if Ascii.eqb ledR "2" then emit TaskResume st
  else st.

(** ** [rtcm3GetMessageType]

    The buffer is read through [!!], which fails past its end: a result
    [Some _] tells that the bytes the function read were all there. *)

Definition rtcm3GetMessageType (buffer : list ascii) : option Z :=
  match buffer !! 0%nat with
  | None => None
  | Some b0 =>
    if negb (Ascii.eqb b0 xD3) then Some 0
    else
      match buffer !! 3%nat, buffer !! 4%nat with
      | Some b3, Some b4 =>
        Some (uint16 (Z.lor (Z.shiftl (uint16 (code b3)) 4)
                            (Z.shiftr (code b4) 4)))
      | _, _ => None
      end
  end.

(** ** [checkRTCMtoRadio] *)

(** [rtcmSentence[byteCount] = c].  Past the end of the array C gives the
    store no meaning; the model logs it and leaves its variables as they
    are, so that the rest of the run can still be followed.  On the chip
    the byte lands on whatever lies behind the array: the model is the
    sketch's up to the first logged store of this kind, and says which
    statements run after it, not what the variables then hold. *)
Definition store_rtcm (c : ascii) (st : State) : State :=
  if byteCount st <? RTCM_SIZE
  then set_rtcmSentence (<[Z.to_nat (byteCount st) := c]> (rtcmSentence st)) st
  else emit (StoreOutOfBounds RtcmSentence (byteCount st)) st.

(** The body of [if (Serial0.available() > 0)], once [c] has been read.
    The dump under [debugRad] shows the first [byteCount] bytes of the
    buffer (those of them that lie inside it). *)
Definition relay_byte (c : ascii) (st : State) : State :=
  let st := set_serialChar c (emit (Rx0 c) st) in
  let st := emit (Tx1 c) st in
  let st :=
    if Ascii.eqb c xD3
    then set_preamble (if preamble st =? 0 then 1 else 2) st
    else st in
  if preamble st =? 1 then
    set_byteCount (uint16 (byteCount st + 1)) (store_rtcm c st)
  else if preamble st =? 2 then
    let st :=
      if debugRad st
      then emit (PrintFrame (rtcm3GetMessageType (rtcmSentence st))
                            (byteCount st)
                            (take (Z.to_nat (byteCount st)) (rtcmSentence st)))
                st
      else st in
    let st := updateLED "2" st in
    let st := set_byteCount 0 st in
    let st := set_preamble 0 st in
    set_rtcmSentence (zeroed RTCM_SIZE) st
  else st.

Definition checkRTCMtoRadio (st : State) : State :=
  match serial0_rx st with
  | [] => st
  | c :: rest => relay_byte c (set_serial0_rx rest st)
  end.

(** ** [checkSerialUSB] *)

(** *** C strings held in a [char] array *)

(** The string a C function reads from the start of [buf]: the characters
    before the first NUL.  An array holding no NUL makes the C functions run
    past its end; the model then reads the array and no more. *)
Fixpoint cstr (buf : list ascii) : string :=
  match buf with
  | [] => EmptyString
  | c :: rest => if Ascii.eqb c NUL then EmptyString else String c (cstr rest)
  end.

(** [strstr(s, "c") != NULL] for a one-character needle. *)
Fixpoint contains (c : ascii) (s : string) : bool :=
  match s with
  | EmptyString => false
  | String d rest => Ascii.eqb d c || contains c rest
  end.

(** [strlen(s) > 0]. *)
Definition nonempty (s : string) : bool :=
  match s with EmptyString => false | String _ _ => true end.

Definition toupper (c : ascii) : ascii :=
  if (97 <=? code c) && (code c <=? 122)
  then ascii_of_N (Z.to_N (code c - 32))
  else c.

(** [command[posn] = c], with the same reading of a store past the end as
    [store_rtcm]. *)
Definition store_command (c : ascii) (st : State) : State :=
  if posn st <? COMMAND_SIZE
  then set_command (<[Z.to_nat (posn st) := c]> (command st)) st
  else emit (StoreOutOfBounds Command (posn st)) st.

Definition reset_command (st : State) : State :=
  set_posn 0 (set_command (zeroed COMMAND_SIZE) st).

(** *** What the console prints *)

(** The answer to a line holding [?]. *)
Definition command_listing : list Event :=
  [ Print (nl ++ "Valid commands: ");
    Print "testLEDr, "; Print "testRad, "; Print "debugRad, ";
    Print ("reset." ++ nl ++ "! to quit." ++ nl) ]%string.

(** [Serial.printf("%s %s\n", COMMANDS[i], flag ? "enabled." : "disabled.")]. *)
Definition report (name : string) (flag : bool) : Event :=
  Print (name ++ " " ++ (if flag then "enabled." else "disabled.") ++ nl)%string.

Definition invalid_command (line : string) : Event :=
  Print (nl ++ quote ++ line ++ quote ++ " is not a valid command. " ++ nl)%string.

Definition radio_instructions : list Event :=
  [ Println (nl ++ "HC-12 command mode enabled (! to exit)");
    Println "  AT, AT+Bxxxx, AT+Cxxx, AT+FUx, AT+Px,";
    Println "  AT+Ry (AT+RB, AT+RC, AT+RF, AT+RP, AT+RX),";
    Println "  (y = B=baudrate, C=channel, F=mode, P=power),";
    Println "  AT+Udps, AT+V, AT+SLEEP, AT+DEFAULT, AT+UPDATE.";
    Println ("See https://www.datsi.fi.upm.es/docencia/DMC/HC-12_v2.3A.pdf"
             ++ nl) ]%string.

Definition led_instructions : Event :=
  Print ("Valid options: 0(off), 1(on), 2(active). ! to quit." ++ nl)%string.

Definition led_help : Event :=
  Print ("! to quit. Valid options: 0(off), 1(on), 2(active)." ++ nl)%string.

(** *** The switch over the matched command *)

Definition switch_command (i : nat) (name : string) (st : State) : State :=
  match i with
  | 0%nat =>
    let st := set_testLEDr (negb (testLEDr st)) st in
    emit (report name (testLEDr st)) st
  | 1%nat =>
    let st := set_testRad (negb (testRad st)) st in
    emit (report name (testRad st)) st
  | 2%nat =>
    let st := set_debugRad (negb (debugRad st)) st in
    emit (report name (debugRad st)) st
  | 3%nat =>
    let st := set_reset (negb (reset st)) st in
    let st := emit (report name (reset st)) st in
    let st := emit (Println "Restarting ...") st in
    set_pc Restarted (emit Restart st)
  | _ => st
  end.

(** *** The radio test: HC-12 command mode *)

(** [delay(200)] and then the bytes the HC-12 has sent meanwhile. *)
Definition await_reply (st : State) : list ascii * State :=
  let st := emit (Delay 200) st in
  match hc12_replies st with
  | [] => ([], st)
  | r :: later => (r, set_hc12_replies later st)
  end.

(** [while (Serial1.available() > 0) { serialChar = Serial1.read(); ... }]
    over the reply [r]. *)
Fixpoint show_reply (r : list ascii) (st : State) : State :=
  match r with
  | [] => st
  | c :: r' =>
    let st := set_serialChar c st in
    let st :=
      if negb (code c =? 255) && (0 <? posn st)
      then emit (Print (String c EmptyString)) st
      else st in
    show_reply r' st
  end.

(** [Serial1.write(command)]: the C string, byte by byte. *)
Fixpoint write_string (s : string) (st : State) : State :=
  match s with
  | EmptyString => st
  | String c s' => write_string s' (emit (Tx1 c) st)
  end.

(** The [while (true)] of the radio test over the console input [rx].  It
    is left by [return] on [!]; with [rx] used up, control waits inside it. *)
Fixpoint radio_loop (rx : list ascii) (st : State) : State :=
  match rx with
  | [] => set_usb_rx [] (set_pc InRadioTest st)
  | c0 :: rx' =>
    let c := toupper c0 in
    let st := set_serialChar c st in
    if Ascii.eqb c EXIT_TEST then
      let st := emit (Println ("HC-12 command mode disabled." ++ nl)) st in
      let st := emit (SetPin true) st in
      let st := set_usb_rx (tail rx') st in        (* Serial.read() *)
      set_pc InLoop (set_testRad false st)
    else if Ascii.eqb c LF then
      let st := write_string (cstr (command st)) st in
      let st := emit (Println "") st in
      let (r, st) := await_reply st in
      let st := show_reply r st in
      radio_loop rx' (reset_command st)
    else
      let st :=
        if negb (code c =? 255)
        then
          let st := emit (Print (String c EmptyString)) st in
          set_posn (size_t (posn st + 1)) (store_command c st)
        else st in
      radio_loop rx' st
  end.

Definition radio_test (st : State) : State :=
  let st := emit (SetPin false) st in
  let st := emit (Tx1 LF) st in
  let (_, st) := await_reply st in                 (* read and dropped *)
  let st := emits radio_instructions st in
  let st := reset_command st in
  radio_loop (usb_rx st) st.

(** *** The LED test *)

(** [for (i = 0; i < 5; i++) { updateLED('2'); printf("Blink %i\n", i+1);
    delay(1000); }] *)
Definition blink5 (st : State) : State :=
  fold_left
    (fun st n =>
       let st := updateLED "2" st in
       let st := emit (Print ("Blink " ++ n ++ nl)) st in
       emit (Delay 1000) st)
    ["1"; "2"; "3"; "4"; "5"]%string st.

(** The [while (true)] of the LED test.  Each turn reads one character and
    one more that it drops (nothing is dropped when none is waiting). *)
Fixpoint led_loop (rx : list ascii) (st : State) : State :=
  match rx with
  | [] => set_usb_rx [] (set_pc InLedTest st)
  | c :: rx1 =>
    let st := set_serialChar c st in
    let go (st : State) : State :=
      match rx1 with
      | [] => set_usb_rx [] (set_pc InLedTest st)
      | _ :: rx2 => led_loop rx2 st
      end in
    if Ascii.eqb c EXIT_TEST then
      let st := emit (Println "testLEDr disabled.") st in
      let st := set_testLEDr false st in
      set_pc InLoop (set_usb_rx (tail rx1) st)
    else if Ascii.eqb c "0" then
      go (updateLED "0"
            (emit (Print (String c (" - radio LED off." ++ nl))) st))
    else if Ascii.eqb c "1" then
      go (updateLED "1"
            (emit (Print (String c (" - radio LED on." ++ nl))) st))
    else if Ascii.eqb c "2" then
      let st :=
        emit (Print (String c (" - radio LED active - 5 cycles." ++ nl))) st in
      go (emit (Println "") (blink5 st))
    else go (emit led_help st)
  end.

Definition led_test (st : State) : State :=
  led_loop (usb_rx st) (emit led_instructions st).

(** *** Dispatch of a line *)

(** The [while ((whichCommand == 100) && (i < NUM_COMMANDS))] loop, from
    index [i] over the commands [names] not yet compared.  The result holds
    [whichCommand] ([None] for 100), whether the function has been left from
    inside the loop (by [return], or for good), and the state. *)
Fixpoint command_loop (i : nat) (names : list string) (st : State)
  : option nat * bool * State :=
  match names with
  | [] => (None, false, st)
  | name :: names' =>
    if String.eqb (cstr (command st)) name then
      let st := switch_command i name st in
      match pc st with
      | Restarted => (Some i, true, st)
      | _ =>
        if testRad st then (Some i, true, radio_test st)
        else if testLEDr st then (Some i, true, led_test st)
        else (Some i, false, st)
      end
    else command_loop (S i) names' st
  end.

(** The body of [if (posn > 0)]: the result tells whether the function has
    been left, so that the reset of the buffer is skipped. *)
Definition dispatch (st : State) : bool * State :=
  if contains QUERY (cstr (command st)) then
    (false, emits command_listing st)
  else if contains EXIT_TEST (cstr (command st)) then
    let st := set_testLEDr false st in
    let st := set_testRad false st in
    let st := set_debugRad false st in
    let st := set_reset false st in
    (false, emit (Println (nl ++ "All debugging disabled.")) st)
  else
    match command_loop 0 COMMANDS st with
    | (whichCommand, true, st) => (true, st)
    | (whichCommand, false, st) =>
      if nonempty (cstr (command st))
         && match whichCommand with None => true | Some _ => false end
      then (false, emit (invalid_command (cstr (command st))) st)
      else (false, st)
    end.

(** One call from [loop()]. *)
Definition checkSerialUSB (st : State) : State :=
  match usb_rx st with
  | [] => st
  | c :: rest =>
    let st := set_serialChar c (set_usb_rx rest st) in
    if Ascii.eqb c LF || Ascii.eqb c CR then
      let (left, st) := if 0 <? posn st then dispatch st else (false, st) in
      if left then st else reset_command st
    else
      set_posn (size_t (posn st + 1)) (store_command c st)
  end.

(** ** [loop()] and the environment *)

Definition loop (st : State) : State :=
  let st := checkSerialUSB st in
  match pc st with
  | InLoop => checkRTCMtoRadio st
  | _ => st
  end.

(** The console's share of one step of the sketch: a call of
    [checkSerialUSB] from [loop()], or, with control inside a test loop, that
    loop over the console input that has arrived. *)
Definition console_step (st : State) : State :=
  match pc st with
  | InLoop => checkSerialUSB st
  | InRadioTest => radio_loop (usb_rx st) st
  | InLedTest => led_loop (usb_rx st) st
  | Restarted => st
  end.

(** One step of the whole sketch: the console's share and then, when control
    is in [loop()], the call of [checkRTCMtoRadio] that ends its turn. *)
Definition step (st : State) : State :=
  let st := console_step st in
  match pc st with
  | InLoop => checkRTCMtoRadio st
  | _ => st
  end.

(** Bytes arriving on Serial0 (from the ZED-F9P) and on the console.  They
    wait until they are read, however many they are: what a full receive
    buffer of the UART drops is not modelled. *)
Definition arrive0 (bytes : list ascii) (st : State) : State :=
  set_serial0_rx (serial0_rx st ++ bytes) st.
Definition arriveUSB (text : string) (st : State) : State :=
  set_usb_rx (usb_rx st ++ list_ascii_of_string text) st.

(** ** Observations on a trace *)


(** What has been written to Serial1. *)
Fixpoint sent1 (t : list Event) : list ascii :=
  match t with
  | [] => []
  | Tx1 c :: t' => c :: sent1 t'
  | _ :: t' => sent1 t'
  end.

(** How often the LED task has been resumed: the pulses asked for. *)
Fixpoint pulses (t : list Event) : nat :=
  match t with
  | [] => 0%nat
  | TaskResume :: t' => S (pulses t')
  | _ :: t' => pulses t'
  end.

(** The indices of the stores past the end of buffer [b]. *)
Fixpoint out_of_bounds (b : Buffer) (t : list Event) : list Z :=
  match t with
  | [] => []
  | StoreOutOfBounds b' i :: t' =>
    match b, b' with
    | RtcmSentence, RtcmSentence | Command, Command => i :: out_of_bounds b t'
    | _, _ => out_of_bounds b t'
    end
  | _ :: t' => out_of_bounds b t'
  end.

(** ** Running the relay *)


(** Call [checkRTCMtoRadio] once for each byte that waits. *)
Definition drain (st : State) : State :=
  Nat.iter (length (serial0_rx st)) checkRTCMtoRadio st.

(** What the relay of one byte looks like on the links. *)
Definition echo (c : ascii) : list Event := [Rx0 c; Tx1 c].

(** A stream of RTCM3 sentences, each given by what follows its preamble. *)
Definition sentences (bodies : list (list ascii)) : list ascii :=
  concat (map (cons xD3) bodies).

(** No preamble byte inside. *)
Definition plain (body : list ascii) : Prop := Forall (fun c => c <> xD3) body.


(** The frame synchronizer on its own: [preamble] as it stands between two
    calls and the number of pulses asked for so far, over one byte. *)
Definition observe (s : Z * nat) (c : ascii) : Z * nat :=
  let (p, k) := s in
  let p := if Ascii.eqb c xD3 then (if p =? 0 then 1 else 2) else p in
  if p =? 1 then (1, k)
  else if p =? 2 then (0, S k)
  else (p, k).

(** ** Typing on the console *)

(** Type [line] and a line feed, and let the console take as many steps as
    there are characters: from [loop()], one call of [checkSerialUSB] for
    each. *)
Definition enter (line : string) (st : State) : State :=
  Nat.iter (S (String.length line)) console_step
    (arriveUSB (line ++ nl) st).

(** A line that the command buffer can hold as a C string: one to ten
    characters, none of them NUL or a line end. *)
Fixpoint visible (s : string) : bool :=
  match s with
  | EmptyString => true
  | String c rest =>
    negb (Ascii.eqb c NUL) && negb (Ascii.eqb c LF) && negb (Ascii.eqb c CR)
    && visible rest
  end.
Definition fits (line : string) : bool :=
  visible line && (0 <? Z.of_nat (String.length line))
  && (Z.of_nat (String.length line) <? COMMAND_SIZE).

(** The command buffer once the characters [typed] have been stored into
    it from its start, and the state of a console that has just read them,
    [c] last, with [rest] still waiting. *)
Definition holds (typed : list ascii) : list ascii :=
  typed ++ replicate (Z.to_nat COMMAND_SIZE - length typed) NUL.
Definition typed_into (typed : list ascii) (c : ascii) (rest : list ascii)
    (st : State) : State :=
  set_posn (Z.of_nat (length typed))
    (set_command (holds typed) (set_serialChar c (set_usb_rx rest st))).

(** The console at rest: control in [loop()], nothing typed yet, nothing
    waiting. *)
Definition at_rest (st : State) : Prop :=
  pc st = InLoop /\ posn st = 0 /\ command st = zeroed COMMAND_SIZE
  /\ usb_rx st = [].

(** ** More of the relay *)

(** The sentence buffer once the bytes [sentence] have been stored into it
    from its start. *)
Definition captured (sentence : list ascii) : list ascii :=
  sentence ++ replicate (Z.to_nat RTCM_SIZE - length sentence) NUL.

(** The frame synchronizer between two calls: no capture open, with the
    count at zero and the buffer cleared, or one capture open. *)
Definition idle (st : State) : Prop :=
  preamble st = 0 /\ byteCount st = 0 /\ rtcmSentence st = zeroed RTCM_SIZE.
Definition synced (st : State) : Prop :=
  idle st
  \/ (preamble st = 1 /\ 0 <= byteCount st < 65536
      /\ Z.of_nat (length (rtcmSentence st)) = RTCM_SIZE).

(** What the console works on, and what the relay works on. *)
Definition console_view (st : State) :=
  (testLEDr st, testRad st, debugRad st, reset st,
   command st, posn st, usb_rx st, hc12_replies st, pc st).
Definition relay_view (st : State) :=
  (preamble st, byteCount st, rtcmSentence st, serial0_rx st).

(** From [st] to [st'] no store went past the end of an array: the log of
    such stores is the one [st] had.  Up to there the model is the sketch;
    what the chip does after such a store is not in the sketch's text, so a
    statement on the variables after a run that could hold one is made
    under this hypothesis. *)
Definition kept_in_bounds (st st' : State) : Prop :=
  out_of_bounds RtcmSentence (trace st') = out_of_bounds RtcmSentence (trace st)
  /\ out_of_bounds Command (trace st') = out_of_bounds Command (trace st).

(** How many stores have gone past the end of an array so far. *)
Definition overruns (st : State) : nat :=
  (length (out_of_bounds RtcmSentence (trace st))
   + length (out_of_bounds Command (trace st)))%nat.

(** [R] holds from [st] to [st'] unless a store has gone past the end of
    an array in between; the count of these stores never goes down. *)
Definition unless_overrun (R : State -> State -> Prop) (st st' : State)
  : Prop :=
  (overruns st <= overruns st')%nat
  /\ (overruns st' = overruns st -> R st st').

(** From [st] to [st'] the relay's state has been left alone; the console's
    has, and the frame synchronizer is still in step; the synchronizer is
    still in step. *)
Definition relay_untouched (st st' : State) : Prop :=
  relay_view st' = relay_view st.
Definition console_untouched (st st' : State) : Prop :=
  console_view st' = console_view st /\ (synced st -> synced st').
Definition keeps_synced (st st' : State) : Prop := synced st -> synced st'.

(** One turn of the sketch with its surroundings: [text] reaches the
    console and [bytes] reach Serial0, and the sketch takes a step. *)
Definition turn (st : State) (input : string * list ascii) : State :=
  step (arrive0 (snd input) (arriveUSB (fst input) st)).

(** ** More observations on a trace *)

(** [st'] has the trace of [st] and then only events that [P] allows. *)
Definition extends (P : Event -> bool) (st st' : State) : Prop :=
  exists es, trace st' = trace st ++ es /\ forallb P es = true.

(** What the LED test may do: print, drive the LED, resume the LED task,
    wait. *)
Definition led_event (e : Event) : bool :=
  match e with
  | Print _ | Println _ | LedWrite _ | TaskResume | Delay _ => true
  | _ => false
  end.

(** What the radio test may do before it is left: print, write to Serial1,
    wait, and store into [command] with no check of [posn]. *)
Definition radio_event (e : Event) : bool :=
  match e with
  | Print _ | Println _ | Tx1 _ | Delay _ | StoreOutOfBounds Command _ => true
  | _ => false
  end.

(** What the console may log at all: anything but a read of Serial0, the
    dump of a sentence, or a store through [rtcmSentence[byteCount]] past
    the end of the buffer. *)
Definition console_event (e : Event) : bool :=
  match e with
  | Rx0 _ | PrintFrame _ _ _ | StoreOutOfBounds RtcmSentence _ => false
  | _ => true
  end.

(** The level of the SET pin of the HC-12 after the trace [t], from the
    level [p] before it ([true] for HIGH: transparent mode). *)
Fixpoint pin_after (p : bool) (t : list Event) : bool :=
  match t with
  | [] => p
  | SetPin high :: t' => pin_after high t'
  | _ :: t' => pin_after p t'
  end.

(** Events that leave the SET pin alone. *)
Definition no_pin (e : Event) : bool :=
  match e with SetPin _ => false | _ => true end.

(** The level of the SET pin in state [st]: HIGH since [initPins()], and
    then as the trace tells. *)
Definition pin_level (st : State) : bool := pin_after true (trace st).

(** The HC-12 is in command mode (SET low) exactly while control is inside
    the radio test. *)
Definition radio_mode_ok (st : State) : Prop :=
  pin_level st = match pc st with InRadioTest => false | _ => true end.

(** A stretch of the radio test before it is left: [testRad] stays and only
    what [radio_event] allows is done. *)
Definition radio_keeps (st st' : State) : Prop :=
  testRad st' = testRad st /\ extends radio_event st st'.

(** How the [while (true)] of the radio test is found after the input it
    was given: left, with [testRad] clear and the SET pin set HIGH last of
    all, or waiting inside for more. *)
Definition radio_outcome (st st' : State) : Prop :=
  (pc st' = InLoop /\ testRad st' = false
   /\ exists st1, extends radio_event st st1
                  /\ trace st' = trace st1 ++ [SetPin true])
  \/ (pc st' = InRadioTest /\ usb_rx st' = [] /\ radio_keeps st st').

(** A stretch of the radio test that has left the relay's state alone. *)
Definition radio_stretch (st st' : State) : Prop :=
  relay_view st' = relay_view st /\ radio_keeps st st'.

(** What a call of the relay may log: a read of Serial0, a write to
    Serial1, the dump of a sentence, the resume of the LED task, and a
    store through [rtcmSentence[byteCount]] past the end of the buffer
    (the store has no check of [byteCount]). *)
Definition relay_event (e : Event) : bool :=
  match e with
  | Rx0 _ | Tx1 _ | PrintFrame _ _ _ | TaskResume
  | StoreOutOfBounds RtcmSentence _ => true
  | _ => false
  end.

(** ** A line in the radio test *)

(** The line as the radio test stores it. *)
Fixpoint upper (s : string) : string :=
  match s with
  | EmptyString => EmptyString
  | String c rest => String (toupper c) (upper rest)
  end.

(** A line the radio test takes as a command for the HC-12: up to ten
    characters, none of them, once in upper case, [!], a line feed, NUL or
    0xFF. *)
Fixpoint plain_text (s : string) : bool :=
  match s with
  | EmptyString => true
  | String c rest =>
    negb (Ascii.eqb (toupper c) EXIT_TEST) && negb (Ascii.eqb (toupper c) LF)
    && negb (Ascii.eqb (toupper c) NUL) && negb (code (toupper c) =? 255)
    && plain_text rest
  end.
Definition sendable (line : string) : bool :=
  plain_text line && (Z.of_nat (String.length line) <? COMMAND_SIZE).

(** The echo of typed characters, and a reply of the HC-12 as it is shown:
    character by character, those of 0xFF left out. *)
Definition echoed (s : string) : list Event :=
  map (fun c => Print (String c EmptyString)) (list_ascii_of_string s).
Definition shown (reply : list ascii) : list Event :=
  map (fun c => Print (String c EmptyString))
    (List.filter (fun c => negb (code c =? 255)) reply).

(** ** The LED task *)

(** Where [radioRtcmLEDtask] stands: suspended, at its [vTaskSuspend(NULL)]
    or as [startTasks()] has left it, or inside [vTaskDelay] with so many
    ticks still to wait. *)
Inductive Task := Suspended | Delayed (ticks : nat).

(** The task and the calls of [digitalWrite(LED_RADIO, _)] so far, in
    order ([true] for HIGH). *)
Record Led := mkLed { task : Task; writes : list bool }.

Definition digitalWrite (v : bool) (l : Led) : Led :=
  mkLed (task l) (writes l ++ [v]).

(** Modelled from the spec: [vTaskResume(radioRtcmLEDtaskHandle)], by 4.2.
    A suspended task is resumed, and runs the sketch's code up to its next
    blocking call: the top of the [while (true)] of [radioRtcmLEDtask],
    [digitalWrite(LED_RADIO, HIGH)] and [vTaskDelay(LED_TIME_FLASH_ON)].
    Resuming a task that is not suspended is a no-op.  [flash] is
    [LED_TIME_FLASH_ON], that is [100/portTICK_PERIOD_MS] ticks. *)
Definition vTaskResume (flash : nat) (l : Led) : Led :=
  match task l with
  | Suspended => mkLed (Delayed flash) (writes (digitalWrite true l))
  | Delayed _ => l
  end.

(** Modelled from the spec: one tick of the scheduler.  A delay with more
    than one tick left goes on; one that ends lets the task run the rest of
    the body of its loop: [digitalWrite(LED_RADIO, LOW)] and
    [vTaskSuspend(NULL)].  A suspended task stays so. *)
Definition tick (l : Led) : Led :=
  match task l with
  | Suspended => l
  | Delayed (S (S n)) => mkLed (Delayed (S n)) (writes l)
  | Delayed _ => mkLed Suspended (writes (digitalWrite false l))
  end.

(** What a logged call of the sketch does to the LED and its task. *)
Definition led_apply (flash : nat) (l : Led) (e : Event) : Led :=
  match e with
  | LedWrite v => digitalWrite v l
  | TaskResume => vTaskResume flash l
  | _ => l
  end.

(** What happens to the LED, one thing after the other: [loop()] calls
    [updateLED(ledR)], or the scheduler ticks. *)
Inductive Moment := Calls (ledR : ascii) | Tick.

Definition led_step (flash : nat) (l : Led) (m : Moment) : Led :=
  match m with
  | Calls ledR => fold_left (led_apply flash) (trace (updateLED ledR initial)) l
  | Tick => tick l
  end.
Definition led_run (flash : nat) (ms : list Moment) (l : Led) : Led :=
  fold_left (led_step flash) ms l.

(** The writes go HIGH, LOW, HIGH, ... from [next] on. *)
Fixpoint alternates (next : bool) (ws : list bool) : bool :=
  match ws with
  | [] => true
  | w :: ws' => Bool.eqb w next && alternates (negb next) ws'
  end.

(** The writes since [ws0] alternate from HIGH, an odd number of them
    exactly while the task is inside its delay. *)
Definition one_in_flight (ws0 : list bool) (l : Led) : Prop :=
  exists ws, writes l = ws0 ++ ws /\ alternates true ws = true
    /\ Nat.even (length ws)
       = match task l with Suspended => true | Delayed _ => false end.

(** Only pulse requests and ticks. *)
Definition pulse_or_tick (m : Moment) : Prop := m = Calls "2" \/ m = Tick.

(** * The relay of the build of 2025-12-13

    [checkRTCMtoRadio] as the sketch of
    [build/sketch/DougFoster_Ghost_Rover_EVK_RTCM_relay.ino.cpp] has it:
    the relay with the byte-count heuristic, which takes 0xD3 followed by a
    byte below 3 as the start of a sentence.  The links are [serial1] (in)
    and [serial2] (out) there. *)

Module Build1213.

Inductive Event :=
| Read1 (c : ascii)                (* serial1.read() gave c *)
| Write2 (c : ascii)               (* serial2.write(c) *)
| PrintByte (c : ascii)            (* Serial.printf("%02x", c) *)
| PrintSentence (sent count : Z) (c : ascii)
                                   (* the debugRad line for a sentence *)
| TaskResume.                      (* updateLEDs('2') *)

Record State := mkState {
  serial1Char : ascii;
  debugRad : bool;
  (* static locals of checkRTCMtoRadio *)
  preambleCount : Z;
  byteCount : Z;
  sentCount : Z;
  (* bytes waiting on serial1, and what has been done *)
  serial1_rx : list ascii;
  trace : list Event
}.

Definition uint8 (z : Z) : Z := z mod 256.
Definition uint32 (z : Z) : Z := z mod 4294967296.

Definition with_rx (q : list ascii) (st : State) : State :=
  mkState (serial1Char st) (debugRad st) (preambleCount st) (byteCount st)
    (sentCount st) q (trace st).

(** The body of [if (serial1.available() > 0)], once [c] has been read. *)
Definition relay_byte (c : ascii) (st : State) : State :=
  let count := uint16 (byteCount st + 1) in
  let t := trace st ++ [Read1 c; Write2 c] in
  let '(p, t) :=
    if (preambleCount st =? 0) && Ascii.eqb c xD3
    then (uint8 (preambleCount st + 1), t)
    else if (preambleCount st =? 1) && (code c <? 3)
    then (uint8 (preambleCount st + 1), t)
    else (0, if debugRad st then t ++ [PrintByte c] else t) in
  if p =? 2 then
    let sent := uint32 (sentCount st + 1) in
    let t := if debugRad st then t ++ [PrintSentence sent count c] else t in
    mkState c (debugRad st) 0 0 sent (serial1_rx st) (t ++ [TaskResume])
  else
    mkState c (debugRad st) p count (sentCount st) (serial1_rx st) t.

Definition checkRTCMtoRadio (st : State) : State :=
  match serial1_rx st with
  | [] => st
  | c :: rest => relay_byte c (with_rx rest st)
  end.

(** Call [checkRTCMtoRadio] once for each byte of [bytes], which have
    reached serial1 behind those that wait. *)
Definition run (bytes : list ascii) (st : State) : State :=
  Nat.iter (length (serial1_rx st ++ bytes)) checkRTCMtoRadio
    (with_rx (serial1_rx st ++ bytes) st).

Fixpoint pulses (t : list Event) : nat :=
  match t with
  | [] => 0%nat
  | TaskResume :: t' => S (pulses t')
  | _ :: t' => pulses t'
  end.

Fixpoint sent2 (t : list Event) : list ascii :=
  match t with
  | [] => []
  | Write2 c :: t' => c :: sent2 t'
  | _ :: t' => sent2 t'
  end.

(** The heuristic on its own: [preambleCount] between two calls and the
    number of pulses asked for so far, over one byte. *)
Definition observe (s : Z * nat) (c : ascii) : Z * nat :=
  let (p, k) := s in
  let p :=
    if (p =? 0) && Ascii.eqb c xD3 then uint8 (p + 1)
    else if (p =? 1) && (code c <? 3) then uint8 (p + 1)
    else 0 in
  if p =? 2 then (0, S k) else (p, k).

(** A sentence as the heuristic sees it: the preamble, a second byte, and
    the bytes after it; and a stream of such sentences. *)
Definition sentence (second : ascii) (body : list ascii) : list ascii :=
  xD3 :: second :: body.
Definition stream (parts : list (ascii * list ascii)) : list ascii :=
  concat (map (fun part => sentence (fst part) (snd part)) parts).

End Build1213.

(** * Properties *)

(** ** General facts *)



Lemma pulses_app (s t : list Event) : pulses (s ++ t) = (pulses s + pulses t)%nat.
Proof.
  induction s as [|e s IH]; [reflexivity|].
  destruct e; simpl; rewrite IH; reflexivity.
Qed.

Lemma out_of_bounds_app (b : Buffer) (s t : list Event) :
  out_of_bounds b (s ++ t) = out_of_bounds b s ++ out_of_bounds b t.
Proof.
  induction s as [|e s IH]; [reflexivity|].
  destruct e; simpl; try apply IH.
  destruct b, b0; simpl; rewrite IH; reflexivity.
Qed.



Lemma code_range (c : ascii) : 0 <= code c < 256.
Proof.
  unfold code. pose proof (N_ascii_bounded c). lia.
Qed.

Lemma code_inj (c d : ascii) : code c = code d -> c = d.
Proof.
  unfold code. intros H. apply N2Z.inj in H.
  rewrite <- (ascii_N_embedding c), <- (ascii_N_embedding d). congruence.
Qed.

(** ** The relay, one byte at a time *)


Lemma relay_byte_serial0_rx (c : ascii) (st : State) :
  serial0_rx (relay_byte c st) = serial0_rx st.
Proof.
  unfold relay_byte, store_rtcm, updateLED, emit; simpl.
  destruct (Ascii.eqb c xD3); simpl;
    repeat match goal with
           | |- context [if ?b then _ else _] => destruct b; simpl
           end; reflexivity.
Qed.











(** ** The frame synchronizer *)

Lemma drain_nil (st : State) : serial0_rx st = [] -> drain st = st.
Proof. unfold drain. intros ->. reflexivity. Qed.

Lemma drain_cons (st : State) (c : ascii) (q : list ascii) :
  serial0_rx st = c :: q -> drain st = drain (relay_byte c (set_serial0_rx q st)).
Proof.
  intros Hq. unfold drain.
  rewrite relay_byte_serial0_rx, Hq; simpl length.
  rewrite Nat.iter_succ_r. unfold checkRTCMtoRadio at 2. rewrite Hq.
  reflexivity.
Qed.

(** [relay_byte] moves [preamble] and the pulse count as [observe] does. *)
Lemma relay_byte_observe (c : ascii) (st : State) :
  (preamble (relay_byte c st), pulses (trace (relay_byte c st)))
  = observe (preamble st, pulses (trace st)) c.
Proof.
  unfold relay_byte, observe, store_rtcm, updateLED, emit; simpl.
  destruct (Ascii.eqb c xD3); simpl;
    repeat match goal with
           | |- context [if ?b then _ else _] => destruct b eqn:?; simpl
           end;
    rewrite ?pulses_app; simpl; rewrite ?Nat.add_0_r;
    try reflexivity; try lia; f_equal; lia.
Qed.

Lemma drain_observe (st : State) :
  (preamble (drain st), pulses (trace (drain st)))
  = fold_left observe (serial0_rx st) (preamble st, pulses (trace st)).
Proof.
  remember (serial0_rx st) as q eqn:Hq.
  revert st Hq; induction q as [|c q IH]; intros st Hq.
  - rewrite drain_nil by congruence. reflexivity.
  - rewrite (drain_cons st c q) by congruence.
    rewrite IH by (rewrite relay_byte_serial0_rx; reflexivity).
    cbn [fold_left]. rewrite relay_byte_observe. reflexivity.
Qed.

Lemma observe_plain (body : list ascii) (p : Z) (k : nat) :
  plain body -> p = 0 \/ p = 1 ->
  fold_left observe body (p, k) = (p, k).
Proof.
  intros Hbody Hp; induction Hbody as [|c body Hc _ IH]; [reflexivity|].
  cbn [fold_left]. replace (observe (p, k) c) with (p, k); [exact IH|].
  unfold observe. apply Ascii.eqb_neq in Hc. rewrite Hc.
  destruct Hp as [-> | ->]; reflexivity.
Qed.

(** One sentence: its preamble opens a capture when none is open, and
    closes the open one, with a pulse, when one is; the bytes after a
    closing preamble are let through without a capture. *)
Lemma observe_sentence (body : list ascii) (p : Z) (k : nat) :
  plain body -> p = 0 \/ p = 1 ->
  fold_left observe (xD3 :: body) (p, k)
  = if p =? 0 then (1, k) else (0, S k).
Proof.
  intros Hbody [-> | ->]; cbn [fold_left];
    change (observe _ xD3) with (1, k) || change (observe _ xD3) with (0, S k);
    apply observe_plain; auto.
Qed.

Lemma observe_sentences (bodies : list (list ascii)) (p : Z) (k : nat) :
  Forall plain bodies -> p = 0 \/ p = 1 ->
  snd (fold_left observe (sentences bodies) (p, k))
  = (k + (length bodies + Z.to_nat p) / 2)%nat.
Proof.
  intros Hall; revert p k.
  induction Hall as [|body bodies Hbody _ IH]; intros p k Hp.
  - destruct Hp as [-> | ->]; simpl; lia.
  - change (sentences (body :: bodies))
      with ((xD3 :: body) ++ sentences bodies).
    rewrite fold_left_app.
    rewrite (observe_sentence body p k Hbody Hp).
    destruct Hp as [-> | ->]; simpl Z.eqb; cbv iota; rewrite IH by auto.
    + simpl length. replace (S (length bodies) + Z.to_nat 0)%nat
        with (length bodies + Z.to_nat 1)%nat by lia. reflexivity.
    + simpl length.
      replace (S (length bodies) + Z.to_nat 1)%nat
        with (length bodies + Z.to_nat 0 + 1 * 2)%nat by lia.
      rewrite Nat.div_add by lia. lia.
Qed.

(** What the synchronizer of version 3.0.10 does with a stream of
    sentences: the preamble that closes a capture is not taken as the start
    of the next one, so every other sentence goes by uncounted, and [k]
    sentences ask for [k / 2] pulses. *)
Lemma sentences_pulse_every_other (st : State) (bodies : list (list ascii)) :
  Forall plain bodies ->
  preamble st = 0 -> serial0_rx st = [] ->
  pulses (trace (drain (arrive0 (sentences bodies) st)))
  = (pulses (trace st) + length bodies / 2)%nat.
Proof.
  intros Hall Hp Hq.
  change (pulses (trace (drain (arrive0 (sentences bodies) st))))
    with (snd (preamble (drain (arrive0 (sentences bodies) st)),
               pulses (trace (drain (arrive0 (sentences bodies) st))))).
  rewrite drain_observe. unfold arrive0; simpl. rewrite Hq, Hp; simpl app.
  rewrite observe_sentences by auto. simpl Z.to_nat.
  rewrite Nat.add_0_r. reflexivity.
Qed.

(** C2.  Three sentences, each a preamble, a second byte of 0 and two more
    bytes without a preamble among them, fed from the initial state: one
    pulse is asked for, not three. *)
Theorem three_sentences_one_pulse :
  let body := [NUL; "001"; "A"]%char in
  let st := drain (arrive0 (sentences [body; body; body]) initial) in
  pulses (trace st) = 1%nat /\ preamble st = 1 /\ byteCount st = 4.
Proof. vm_compute. auto. Qed.

(** C3.  A preamble and 300 more bytes with no second preamble, fed from the
    initial state: the byte after the 300th stored is stored at index 300 of
    [rtcmSentence], one past its end. *)
Theorem unclosed_sentence_overruns_buffer :
  let st := drain (arrive0 (xD3 :: replicate 300 NUL) initial) in
  out_of_bounds RtcmSentence (trace st) = [300]
  /\ Z.of_nat (length (rtcmSentence initial)) = RTCM_SIZE
  /\ pulses (trace st) = 0%nat.
Proof. vm_compute. auto. Qed.

(** ** The message type *)

(** Bytes 3 and 4 joined as the function joins them: twelve bits. *)
Lemma type_bits_range (b3 b4 : ascii) :
  0 <= Z.lor (Z.shiftl (code b3) 4) (Z.shiftr (code b4) 4) < 4096.
Proof.
  pose proof (code_range b3) as H3. pose proof (code_range b4) as H4.
  rewrite Z.shiftl_mul_pow2, Z.shiftr_div_pow2 by lia.
  change (2 ^ 4) with 16.
  assert (Hq : 0 <= code b4 / 16 < 16)
    by (split; [apply Z.div_pos | apply Z.div_lt_upper_bound]; lia).
  set (x := code b3 * 16) in *. set (y := code b4 / 16) in *.
  pose proof (Z.add_lor_land x y) as Hsum.
  assert (0 <= Z.land x y) by (apply Z.land_nonneg; lia).
  assert (0 <= Z.lor x y) by (apply Z.lor_nonneg; lia).
  lia.
Qed.

Lemma rtcm3GetMessageType_preamble (b1 b2 b3 b4 : ascii) (rest : list ascii) :
  rtcm3GetMessageType (xD3 :: b1 :: b2 :: b3 :: b4 :: rest)
  = Some (Z.lor (Z.shiftl (code b3) 4) (Z.shiftr (code b4) 4)).
Proof.
  unfold rtcm3GetMessageType; simpl. f_equal.
  pose proof (code_range b3). pose proof (type_bits_range b3 b4).
  unfold uint16. rewrite (Z.mod_small (code b3)) by lia.
  apply Z.mod_small. lia.
Qed.

Lemma rtcm3GetMessageType_no_preamble (b0 : ascii) (rest : list ascii) :
  b0 <> xD3 -> rtcm3GetMessageType (b0 :: rest) = Some 0.
Proof.
  intros Hb. unfold rtcm3GetMessageType; simpl.
  apply Ascii.eqb_neq in Hb. rewrite Hb. reflexivity.
Qed.

(** C4.  Type extraction.  A buffer that starts with 0xD3, 0x00, 0x13, 0x3E,
    0xD0 yields (0x3E<<4)|(0xD0>>4) = 0x3ED; and any buffer of five bytes or
    more that starts with 0xD3 yields byte 3 shifted left by four, or-ed
    with the high four bits of byte 4, a value of twelve bits. *)
Theorem message_type_extraction :
  (forall rest : list ascii,
      rtcm3GetMessageType ([xD3; "000"; "019"; "062"; "208"]%char ++ rest)
      = Some (Z.lor (Z.shiftl 0x3E 4) (Z.shiftr 0xD0 4))
      /\ Z.lor (Z.shiftl 0x3E 4) (Z.shiftr 0xD0 4) = 0x3ED)
  /\ (forall (b1 b2 b3 b4 : ascii) (rest : list ascii),
         let t := Z.lor (Z.shiftl (code b3) 4) (Z.shiftr (code b4) 4) in
         rtcm3GetMessageType (xD3 :: b1 :: b2 :: b3 :: b4 :: rest) = Some t
         /\ 0 <= t < 4096).
Proof.
  split.
  - intros rest. split; reflexivity.
  - intros b1 b2 b3 b4 rest t. split.
    + apply rtcm3GetMessageType_preamble.
    + apply type_bits_range.
Qed.

(** C10, as stated, fails: a buffer with the preamble in place, byte 3 zero
    and byte 4 below 0x10 yields 0 as well, so that the result 0 does not
    tell a missing preamble from an extracted type. *)
Lemma zero_type_with_preamble :
  ~ (forall buffer : list ascii,
        buffer !! 0%nat = Some xD3 -> rtcm3GetMessageType buffer <> Some 0).
Proof.
  intros H.
  apply (H [xD3; "000"; "019"; "000"; "005"]%char); reflexivity.
Qed.

(** C10, amended.  A buffer whose first byte is not 0xD3 yields 0, whatever
    follows and even when nothing follows (bytes 3 and 4 are not read); a
    result other than 0 comes only from a buffer that starts with 0xD3; and
    such a buffer yields 0 exactly when byte 3 is zero and byte 4 is below
    0x10. *)
Theorem message_type_zero (buffer : list ascii) :
  (forall b0 : ascii,
      buffer !! 0%nat = Some b0 -> b0 <> xD3 ->
      rtcm3GetMessageType buffer = Some 0)
  /\ (forall t : Z,
         rtcm3GetMessageType buffer = Some t -> t <> 0 ->
         buffer !! 0%nat = Some xD3)
  /\ (forall (b1 b2 b3 b4 : ascii) (rest : list ascii),
         buffer = xD3 :: b1 :: b2 :: b3 :: b4 :: rest ->
         (rtcm3GetMessageType buffer = Some 0 <-> b3 = NUL /\ code b4 < 16)).
Proof.
  split; [|split].
  - intros b0 Hb0 Hne. destruct buffer as [|c rest]; [discriminate|].
    simpl in Hb0. injection Hb0 as ->.
    apply rtcm3GetMessageType_no_preamble, Hne.
  - intros t Ht Hne. destruct buffer as [|c rest]; [discriminate|].
    destruct (Ascii.eqb_spec c xD3) as [-> | Hc]; [reflexivity|].
    rewrite (rtcm3GetMessageType_no_preamble c rest Hc) in Ht. congruence.
  - intros b1 b2 b3 b4 rest ->. rewrite rtcm3GetMessageType_preamble.
    pose proof (code_range b3) as H3. pose proof (code_range b4) as H4.
    split.
    + intros Hz. injection Hz as Hz. apply Z.lor_eq_0_iff in Hz.
      destruct Hz as [Hx Hy].
      rewrite Z.shiftl_mul_pow2 in Hx by lia.
      rewrite Z.shiftr_div_pow2 in Hy by lia.
      change (2 ^ 4) with 16 in *. split.
      * apply code_inj. change (code NUL) with 0. lia.
      * apply Z.div_small_iff in Hy; lia.
    + intros [-> Hlt]. f_equal. apply Z.lor_eq_0_iff. split.
      * reflexivity.
      * rewrite Z.shiftr_div_pow2 by lia. apply Z.div_small. lia.
Qed.

Lemma message_type_zero_witness :
  rtcm3GetMessageType [NUL] = Some 0
  /\ [xD3; NUL; NUL; "062"; "208"]%char !! 0%nat = Some xD3
  /\ (rtcm3GetMessageType [xD3; NUL; NUL; NUL; "005"]%char = Some 0
      <-> NUL = NUL /\ code "005" < 16).
Proof.
  split; [|split].
  - apply (proj1 (message_type_zero [NUL]) NUL); [reflexivity | discriminate].
  - apply (proj1 (proj2 (message_type_zero
                           [xD3; NUL; NUL; "062"; "208"]%char)) 1005);
      [reflexivity | discriminate].
  - apply (proj2 (proj2 (message_type_zero
                           [xD3; NUL; NUL; NUL; "005"]%char))
             NUL NUL NUL "005"%char []).
    reflexivity.
Defined.

(** ** The console: typing a line *)

Lemma holds_store (typed : list ascii) (c : ascii) :
  (length typed < Z.to_nat COMMAND_SIZE)%nat ->
  <[length typed := c]> (holds typed) = holds (typed ++ [c]).
Proof.
  intros Hlen. unfold holds.
  rewrite <- (Nat.add_0_r (length typed)) at 1. rewrite insert_app_r.
  rewrite length_app; simpl length.
  destruct (Z.to_nat COMMAND_SIZE - length typed)%nat as [|k] eqn:Hk; [lia|].
  replace (Z.to_nat COMMAND_SIZE - (length typed + 1))%nat with k by lia.
  simpl. rewrite <- app_assoc. reflexivity.
Qed.

Lemma visible_cons (c : ascii) (line : string) :
  visible (String c line) = true ->
  c <> NUL /\ c <> LF /\ c <> CR /\ visible line = true.
Proof.
  simpl. rewrite !andb_true_iff, !negb_true_iff, !Ascii.eqb_neq. tauto.
Qed.

(** A character that is no line end is stored at [posn], which moves on. *)
Lemma checkSerialUSB_char (st : State) (c : ascii) (rest typed : list ascii) :
  usb_rx st = c :: rest -> c <> LF -> c <> CR ->
  command st = holds typed -> posn st = Z.of_nat (length typed) ->
  (length typed < Z.to_nat COMMAND_SIZE)%nat ->
  checkSerialUSB st = typed_into (typed ++ [c]) c rest st.
Proof.
  intros Hrx Hlf Hcr Hcmd Hposn Hlen.
  unfold checkSerialUSB. rewrite Hrx.
  apply Ascii.eqb_neq in Hlf, Hcr. rewrite Hlf, Hcr.
  unfold store_command, typed_into; simpl.
  rewrite Hposn, Hcmd.
  assert (Hin : (Z.of_nat (length typed) <? COMMAND_SIZE) = true)
    by (apply Z.ltb_lt; lia).
  rewrite Hin, Nat2Z.id, holds_store by exact Hlen. clear Hin.
  destruct st; unfold set_posn, set_command, set_serialChar, set_usb_rx; simpl.
  f_equal. rewrite length_app; simpl length.
  unfold size_t, COMMAND_SIZE in *. rewrite Z.mod_small; lia.
Qed.

Lemma typed_into_again (typed typed' : list ascii) (c c' : ascii)
    (rest rest' : list ascii) (st : State) :
  typed_into typed' c' rest' (typed_into typed c rest st)
  = typed_into typed' c' rest' st.
Proof. destruct st; reflexivity. Qed.

Lemma console_step_in_loop (st : State) :
  pc st = InLoop -> console_step st = checkSerialUSB st.
Proof. unfold console_step. intros ->. reflexivity. Qed.

(** Typing the characters of a line that still fits stores them one after
    the other. *)
Lemma type_line (line : string) :
  forall (typed rest : list ascii) (st : State),
    visible line = true -> pc st = InLoop ->
    usb_rx st = list_ascii_of_string line ++ rest ->
    command st = holds typed -> posn st = Z.of_nat (length typed) ->
    (length typed + String.length line <= Z.to_nat COMMAND_SIZE)%nat ->
    exists c,
      Nat.iter (String.length line) console_step st
      = typed_into (typed ++ list_ascii_of_string line) c rest st.
Proof.
  induction line as [|a line IH];
    intros typed rest st Hvis Hpc Hrx Hcmd Hposn Hlen.
  - exists (serialChar st). simpl in *. rewrite app_nil_r.
    unfold typed_into. rewrite <- Hcmd, <- Hposn, <- Hrx.
    destruct st; reflexivity.
  - apply visible_cons in Hvis. destruct Hvis as (_ & Hlf & Hcr & Hvis).
    simpl String.length in *. rewrite Nat.iter_succ_r.
    rewrite (console_step_in_loop st Hpc).
    rewrite (checkSerialUSB_char st a (list_ascii_of_string line ++ rest) typed)
      by (auto; lia).
    destruct (IH (typed ++ [a]) rest
                 (typed_into (typed ++ [a]) a
                    (list_ascii_of_string line ++ rest) st))
      as [c Hc]; try reflexivity; auto.
    { rewrite length_app; simpl length. lia. }
    exists c. rewrite Hc, typed_into_again, <- app_assoc. reflexivity.
Qed.

Lemma cstr_terminated (line : string) (after : list ascii) :
  visible line = true ->
  cstr (list_ascii_of_string line ++ NUL :: after) = line.
Proof.
  induction line as [|a line IH]; intros Hvis; [reflexivity|].
  apply visible_cons in Hvis. destruct Hvis as (Hnul & _ & _ & Hvis).
  simpl. apply Ascii.eqb_neq in Hnul. rewrite Hnul, IH by exact Hvis.
  reflexivity.
Qed.

Lemma length_list_ascii_of_string (line : string) :
  length (list_ascii_of_string line) = String.length line.
Proof. induction line; simpl; congruence. Qed.

Lemma list_ascii_of_string_app (s t : string) :
  list_ascii_of_string (s ++ t)
  = list_ascii_of_string s ++ list_ascii_of_string t.
Proof. induction s; simpl; congruence. Qed.

Lemma fits_spec (line : string) :
  fits line = true ->
  visible line = true
  /\ (0 < String.length line < Z.to_nat COMMAND_SIZE)%nat.
Proof.
  unfold fits. rewrite !andb_true_iff, !Z.ltb_lt. unfold COMMAND_SIZE.
  intros [[Hvis Hpos] Hlt]. split; [exact Hvis | lia].
Qed.

(** The command buffer holds a line that fits as the C string of it. *)
Lemma cstr_holds (line : string) :
  fits line = true -> cstr (holds (list_ascii_of_string line)) = line.
Proof.
  intros Hfits. apply fits_spec in Hfits. destruct Hfits as [Hvis Hlen].
  unfold holds. rewrite length_list_ascii_of_string.
  destruct (Z.to_nat COMMAND_SIZE - String.length line)%nat as [|k] eqn:Hk;
    [lia|].
  simpl replicate. apply cstr_terminated, Hvis.
Qed.

(** Entering a line that fits, with the console at rest: the last call of
    [checkSerialUSB] finds the line in the buffer, [posn] at its length, and
    the line feed waiting. *)
Lemma enter_fits (line : string) (st : State) :
  fits line = true -> at_rest st ->
  exists c,
    enter line st
    = checkSerialUSB (typed_into (list_ascii_of_string line) c [LF] st).
Proof.
  intros Hfits (Hpc & Hposn & Hcmd & Hrx).
  apply fits_spec in Hfits. destruct Hfits as [Hvis Hlen].
  unfold enter. simpl Nat.iter.
  destruct (type_line line [] [LF] (arriveUSB (line ++ nl) st)) as [c Hc];
    auto.
  - unfold arriveUSB; simpl. rewrite Hrx, list_ascii_of_string_app.
    reflexivity.
  - unfold COMMAND_SIZE in *. simpl length. lia.
  - exists c. rewrite Hc. apply console_step_in_loop. exact Hpc.
Qed.

(** ** The console: dispatch *)

(** The state in which [dispatch] finds a line that has been entered. *)
Lemma enter_dispatch (line : string) (st : State) :
  fits line = true -> at_rest st ->
  exists s1,
    enter line st
    = (let (left, s2) := dispatch s1 in if left then s2 else reset_command s2)
    /\ cstr (command s1) = line
    /\ usb_rx s1 = [] /\ pc s1 = InLoop /\ trace s1 = trace st
    /\ testLEDr s1 = testLEDr st /\ testRad s1 = testRad st
    /\ debugRad s1 = debugRad st /\ reset s1 = reset st
    /\ hc12_replies s1 = hc12_replies st.
Proof.
  intros Hfits Hrest.
  destruct (enter_fits line st Hfits Hrest) as [c ->].
  destruct Hrest as (Hpc & _).
  exists (set_serialChar LF
            (set_usb_rx [] (typed_into (list_ascii_of_string line) c [LF] st))).
  split.
  - unfold checkSerialUSB at 1.
    change (usb_rx (typed_into _ c [LF] st)) with [LF].
    cbv beta iota. rewrite Ascii.eqb_refl. cbn [orb].
    change (posn (set_serialChar LF (set_usb_rx [] (typed_into _ c [LF] st))))
      with (Z.of_nat (length (list_ascii_of_string line))).
    replace (0 <? Z.of_nat (length (list_ascii_of_string line))) with true;
      [reflexivity|].
    symmetry. apply Z.ltb_lt.
    apply fits_spec in Hfits. rewrite length_list_ascii_of_string. lia.
  - repeat split; try assumption.
    change (cstr (holds (list_ascii_of_string line)) = line).
    apply cstr_holds, Hfits.
Qed.

(** C7, as stated, fails: a line that holds [?] as well as [!] is answered
    with the list of commands, and the flags stay as they are. *)
Lemma query_goes_before_escape :
  let st := set_debugRad true initial in
  contains EXIT_TEST "?!" = true
  /\ debugRad (enter "?!" st) = true
  /\ trace (enter "?!" st) = command_listing.
Proof. vm_compute. auto. Qed.

(** C7, amended.  From any values of the four flags, with the console at
    rest, entering a line of one to ten characters that holds [!] and no [?]
    leaves all four flags false and says so; this happens in the call of
    [checkSerialUSB] that reads the line end, after which control is in
    [loop()] again, the command buffer is cleared, and no test loop has been
    entered (nothing but the one message has been done). *)
Theorem escape_clears_flags (st : State) (line : string) :
  at_rest st -> fits line = true ->
  contains EXIT_TEST line = true -> contains QUERY line = false ->
  let st' := enter line st in
  testLEDr st' = false /\ testRad st' = false
  /\ debugRad st' = false /\ reset st' = false
  /\ trace st' = trace st ++ [Println (nl ++ "All debugging disabled.")]
  /\ at_rest st'.
Proof.
  intros Hrest Hfits Hexit Hquery st'.
  destruct (enter_dispatch line st Hfits Hrest)
    as (s1 & Henter & Hline & Hrx & Hpc & Htrace & _).
  unfold st'. rewrite Henter. unfold dispatch. rewrite Hline, Hquery, Hexit.
  cbv beta iota. repeat split; try assumption.
  simpl. rewrite Htrace. reflexivity.
Qed.

Lemma escape_clears_flags_witness :
  let st := set_reset true (set_debugRad true (set_testLEDr true initial)) in
  let st' := enter "!" st in
  testLEDr st' = false /\ testRad st' = false
  /\ debugRad st' = false /\ reset st' = false
  /\ trace st' = trace st ++ [Println (nl ++ "All debugging disabled.")]
  /\ at_rest st'.
Proof.
  apply (escape_clears_flags
           (set_reset true (set_debugRad true (set_testLEDr true initial)))
           "!"); [repeat split | reflexivity | reflexivity | reflexivity].
Defined.

(** A line that is none of the commands runs through the whole loop without
    a match. *)
Lemma command_loop_no_match (names : list string) :
  forall (i : nat) (st : State),
    ~ In (cstr (command st)) names ->
    command_loop i names st = (None, false, st).
Proof.
  induction names as [|name names IH]; intros i st Hnot; [reflexivity|].
  simpl. destruct (String.eqb_spec (cstr (command st)) name) as [Heq | _].
  - exfalso. apply Hnot. left. symmetry. exact Heq.
  - apply IH. intros Hin. apply Hnot. right. exact Hin.
Qed.

(** C8, as stated, fails twice over.  The line [abc] is answered with the
    error message alone: the list of commands is printed for a line with [?]
    and for no other.  And the line [x!], which is neither [?] nor [!] nor
    a command, clears the flags and is answered with no error message. *)
Lemma unknown_command_not_listed :
  (let st' := enter "abc" initial in
   ~ In "abc"%string COMMANDS
   /\ trace st' = [invalid_command "abc"]
   /\ forall e, In e command_listing -> ~ In e (trace st'))
  /\ (let st := set_debugRad true initial in
      let st' := enter "x!" st in
      ~ In "x!"%string COMMANDS
      /\ debugRad st = true /\ debugRad st' = false
      /\ ~ In (invalid_command "x!") (trace st')).
Proof.
  split.
  - split; [|split].
    + simpl. intuition discriminate.
    + vm_compute. reflexivity.
    + intros e He. vm_compute in He. vm_compute.
      intuition (subst; discriminate).
  - split; [|split; [|split]].
    + simpl. intuition discriminate.
    + reflexivity.
    + vm_compute. reflexivity.
    + vm_compute. intuition discriminate.
Qed.

(** C8, amended.  With the console at rest, entering a line of one to ten
    characters that holds neither [?] nor [!] and is none of the four
    commands leaves the four flags as they are, prints the one error
    message and nothing else (no list of commands), clears the command
    buffer, and leaves control in [loop()]. *)
Theorem unknown_command_reported (st : State) (line : string) :
  at_rest st -> fits line = true ->
  contains QUERY line = false -> contains EXIT_TEST line = false ->
  ~ In line COMMANDS ->
  let st' := enter line st in
  testLEDr st' = testLEDr st /\ testRad st' = testRad st
  /\ debugRad st' = debugRad st /\ reset st' = reset st
  /\ trace st' = trace st ++ [invalid_command line]
  /\ at_rest st'.
Proof.
  intros Hrest Hfits Hquery Hexit Hnot st'.
  destruct (enter_dispatch line st Hfits Hrest)
    as (s1 & Henter & Hline & Hrx & Hpc & Htrace & HL & HR & HD & HS & _).
  unfold st'. rewrite Henter. unfold dispatch. rewrite Hline, Hquery, Hexit.
  rewrite command_loop_no_match by (rewrite Hline; exact Hnot).
  rewrite Hline.
  assert (Hne : nonempty line = true).
  { apply fits_spec in Hfits. destruct line; [simpl in Hfits; lia|reflexivity]. }
  rewrite Hne. cbv beta iota. cbn [andb].
  repeat split; try assumption.
  simpl. rewrite Htrace. reflexivity.
Qed.

Lemma unknown_command_reported_witness :
  let st := set_debugRad true initial in
  let st' := enter "status" st in
  testLEDr st' = testLEDr st /\ testRad st' = testRad st
  /\ debugRad st' = debugRad st /\ reset st' = reset st
  /\ trace st' = trace st ++ [invalid_command "status"]
  /\ at_rest st'.
Proof.
  apply (unknown_command_reported (set_debugRad true initial) "status");
    [repeat split | reflexivity | reflexivity | reflexivity |].
  simpl. intuition discriminate.
Defined.

(** One dispatch of [testLEDr]: the flag is flipped and its new value
    reported; set, it takes control into the LED test at once. *)
Lemma testLEDr_dispatch (st : State) :
  at_rest st -> testRad st = false ->
  let st1 := enter "testLEDr" st in
  testLEDr st1 = negb (testLEDr st) /\ testRad st1 = false
  /\ usb_rx st1 = []
  /\ (testLEDr st = true ->
      trace st1 = trace st ++ [report "testLEDr" false] /\ at_rest st1)
  /\ (testLEDr st = false ->
      trace st1 = trace st ++ [report "testLEDr" true; led_instructions]
      /\ pc st1 = InLedTest).
Proof.
  intros Hrest Hrad st1.
  destruct (enter_dispatch "testLEDr" st eq_refl Hrest)
    as (s1 & Henter & Hline & Hrx & Hpc & Htrace & HL & HR & _).
  unfold st1. rewrite Henter. clear st1 Henter.
  rewrite <- HL, <- Htrace. rewrite <- HR in Hrad. clear HL HR Htrace Hrest.
  destruct s1 as [sc rs fL fR fD fS cmd pn pre bc urx s0rx hc p tr].
  simpl in Hline, Hrx, Hpc, Hrad. subst urx p fR.
  unfold dispatch, command_loop, COMMANDS. cbn [command]. rewrite Hline.
  change (contains QUERY "testLEDr") with false.
  change (contains EXIT_TEST "testLEDr") with false.
  change (String.eqb "testLEDr" "testLEDr") with true. cbv beta iota.
  destruct fL; simpl; rewrite ?Hline; simpl;
    repeat split; intros; try discriminate; rewrite <- ?app_assoc;
    reflexivity.
Qed.

(** C9, as stated, fails: with the flag clear, as it is at start, the first
    [testLEDr] sets it and enters the LED test, which reads the second
    [testLEDr] as options, two characters at a time; the flag stays set and
    one transition has been reported, not two. *)
Lemma second_testLEDr_read_as_options :
  let st := enter "testLEDr" (enter "testLEDr" initial) in
  testLEDr initial = false /\ testLEDr st = true /\ pc st = InLedTest
  /\ trace st
     = [report "testLEDr" true; led_instructions;
        led_help; led_help; led_help; led_help; led_help].
Proof. vm_compute. auto. Qed.

(** C9, amended.  With the console at rest and the radio test off, one
    dispatch of [testLEDr] flips the flag, whatever it was, and reports the
    value it has set.  From a set flag two dispatches in succession give
    [disabled.] and [enabled.] and the flag is set again as it was, the second
    dispatch taking control into the LED test.  From a clear flag the first
    dispatch gives [enabled.] and takes control into the LED test; leaving
    the test with [!] gives [testLEDr disabled.] and the flag is clear
    again as it was. *)
Theorem testLEDr_twice (st : State) :
  at_rest st -> testRad st = false ->
  let st1 := enter "testLEDr" st in
  testLEDr st1 = negb (testLEDr st)
  /\ (testLEDr st = true ->
      let st2 := enter "testLEDr" st1 in
      trace st1 = trace st ++ [report "testLEDr" false]
      /\ pc st1 = InLoop
      /\ trace st2 = trace st1 ++ [report "testLEDr" true; led_instructions]
      /\ pc st2 = InLedTest
      /\ testLEDr st2 = testLEDr st)
  /\ (testLEDr st = false ->
      let st2 := enter "!" st1 in
      trace st1 = trace st ++ [report "testLEDr" true; led_instructions]
      /\ pc st1 = InLedTest
      /\ trace st2 = trace st1 ++ [Println "testLEDr disabled."]
      /\ pc st2 = InLoop
      /\ testLEDr st2 = testLEDr st).
Proof.
  intros Hrest Hrad st1.
  destruct (testLEDr_dispatch st Hrest Hrad)
    as (Hflip & Hrad1 & Hrx1 & Hset & Hclear).
  fold st1 in Hflip, Hrad1, Hrx1, Hset, Hclear.
  split; [exact Hflip|]. split.
  - intros Hflag st2. destruct (Hset Hflag) as [Htrace1 Hrest1].
    destruct (testLEDr_dispatch st1 Hrest1 Hrad1)
      as (Hflip2 & _ & _ & _ & Hclear2).
    fold st2 in Hflip2, Hclear2.
    rewrite Hflag in Hflip. simpl in Hflip.
    destruct (Hclear2 Hflip) as [Htrace2 Hpc2].
    repeat split; try assumption.
    + apply Hrest1.
    + rewrite Hflip2, Hflip, Hflag. reflexivity.
  - intros Hflag st2. destruct (Hclear Hflag) as [Htrace1 Hpc1].
    repeat split; try assumption; unfold st2, enter, arriveUSB;
      simpl Nat.iter; unfold console_step at 2; cbn [pc set_usb_rx usb_rx];
      rewrite Hpc1, Hrx1; simpl; try reflexivity.
    symmetry. exact Hflag.
Qed.

Lemma testLEDr_twice_witness :
  let st := set_testLEDr true initial in
  let st1 := enter "testLEDr" st in
  let st2 := enter "testLEDr" st1 in
  testLEDr st1 = false
  /\ trace st1 = [report "testLEDr" false]
  /\ trace st2 = [report "testLEDr" false; report "testLEDr" true;
                  led_instructions]
  /\ testLEDr st2 = true.
Proof.
  destruct (testLEDr_twice (set_testLEDr true initial))
    as (Hflip & Hset & _); [repeat split | reflexivity |].
  destruct (Hset eq_refl) as (Ht1 & _ & Ht2 & _ & Hflag).
  split; [exact Hflip|]. split; [exact Ht1|]. split; [|exact Hflag].
  rewrite Ht2, Ht1. reflexivity.
Defined.

(** ** Stores past the end of the buffers *)

(** Neither store is guarded: with a capture open, a byte that is no
    preamble is stored at [byteCount] wherever that points. *)
Lemma relay_byte_store_unguarded (c : ascii) (st : State) :
  preamble st = 1 -> c <> xD3 -> RTCM_SIZE <= byteCount st ->
  trace (relay_byte c st)
  = trace st ++ echo c ++ [StoreOutOfBounds RtcmSentence (byteCount st)].
Proof.
  intros Hp Hc Hfull. unfold relay_byte, store_rtcm, emit; simpl.
  apply Ascii.eqb_neq in Hc. rewrite Hc; simpl. rewrite Hp; simpl.
  apply Z.ltb_ge in Hfull. rewrite Hfull; simpl.
  rewrite <- !app_assoc. reflexivity.
Qed.

(** And a character that is no line end is stored at [posn] wherever that
    points. *)
Lemma checkSerialUSB_store_unguarded (c : ascii) (rest : list ascii)
    (st : State) :
  usb_rx st = c :: rest -> c <> LF -> c <> CR -> COMMAND_SIZE <= posn st ->
  trace (checkSerialUSB st) = trace st ++ [StoreOutOfBounds Command (posn st)].
Proof.
  intros Hrx Hlf Hcr Hfull. unfold checkSerialUSB. rewrite Hrx.
  apply Ascii.eqb_neq in Hlf, Hcr. rewrite Hlf, Hcr.
  unfold store_command, emit; simpl.
  apply Z.ltb_ge in Hfull. rewrite Hfull. reflexivity.
Qed.

(** C5.  Twelve characters with no line end among them, typed from the
    initial state: the twelfth is stored at index 11 of [command], one past
    its end (and the eleventh has taken the place of the terminating NUL). *)
Theorem twelve_characters_overrun_command :
  let st := Nat.iter 12 checkSerialUSB (arriveUSB "aaaaaaaaaaaa" initial) in
  out_of_bounds Command (trace st) = [11]
  /\ Z.of_nat (length (command initial)) = COMMAND_SIZE
  /\ posn st = 12
  /\ command st = list_ascii_of_string "aaaaaaaaaaa".
Proof. vm_compute. auto. Qed.


(** * The LED task: one pulse at a time *)

Lemma led_run_app (flash : nat) (ms ms' : list Moment) (l : Led) :
  led_run flash (ms ++ ms') l = led_run flash ms' (led_run flash ms l).
Proof. apply fold_left_app. Qed.

Lemma led_step_request (flash : nat) (l : Led) :
  led_step flash l (Calls "2") = vTaskResume flash l.
Proof. reflexivity. Qed.

Lemma ticks_delayed (flash k : nat) :
  forall (n : nat) (ws : list bool), (k < n)%nat ->
    led_run flash (replicate k Tick) (mkLed (Delayed n) ws)
    = mkLed (Delayed (n - k)) ws.
Proof.
  induction k as [|k IH]; intros n ws Hk.
  - simpl. rewrite Nat.sub_0_r. reflexivity.
  - destruct n as [|[|n]]; [lia | lia |].
    change (led_run flash (replicate (S k) Tick) (mkLed (Delayed (S (S n))) ws))
      with (led_run flash (replicate k Tick) (mkLed (Delayed (S n)) ws)).
    rewrite IH by lia. reflexivity.
Qed.

Lemma ticks_expire (flash n : nat) (ws : list bool) :
  led_run flash (replicate (S n) Tick) (mkLed (Delayed (S n)) ws)
  = mkLed Suspended (ws ++ [false]).
Proof.
  induction n as [|n IH]; [reflexivity|].
  change (led_run flash (replicate (S (S n)) Tick)
            (mkLed (Delayed (S (S n))) ws))
    with (led_run flash (replicate (S n) Tick) (mkLed (Delayed (S n)) ws)).
  exact IH.
Qed.

Lemma alternates_snoc (ws : list bool) :
  forall next : bool, alternates next ws = true ->
    alternates next
      (ws ++ [if Nat.even (length ws) then next else negb next]) = true.
Proof.
  induction ws as [|w ws IH]; intros next Ha.
  - simpl. rewrite Bool.eqb_reflx. reflexivity.
  - simpl in Ha. apply andb_true_iff in Ha as [Hw Ha].
    change ((w :: ws) ++ [if Nat.even (length (w :: ws)) then next else negb next])
      with (w :: (ws ++ [if Nat.even (S (length ws)) then next else negb next])).
    cbn [alternates]. rewrite Hw. cbn [andb].
    specialize (IH (negb next) Ha). rewrite Nat.even_succ, <- Nat.negb_even.
    destruct (Nat.even (length ws)); cbn [negb] in *;
      rewrite ?negb_involutive in IH; exact IH.
Qed.

Lemma led_step_one_in_flight (flash : nat) (ws0 : list bool) (l : Led)
    (m : Moment) :
  pulse_or_tick m -> one_in_flight ws0 l ->
  one_in_flight ws0 (led_step flash l m).
Proof.
  intros Hm (ws & Hw & Ha & He). destruct l as [t w]; simpl in Hw, He.
  subst w. destruct Hm as [-> | ->].
  - rewrite led_step_request. unfold vTaskResume; cbn [task].
    destruct t as [|n].
    + exists (ws ++ [true]). cbn [writes digitalWrite task].
      rewrite app_assoc. split; [reflexivity|]. split.
      * pose proof (alternates_snoc ws true Ha) as Hs.
        rewrite He in Hs. exact Hs.
      * rewrite length_app, Nat.add_comm. cbn [length Nat.add].
        rewrite Nat.even_succ, <- Nat.negb_even, He. reflexivity.
    + exists ws. auto.
  - cbn [led_step]. unfold tick; cbn [task].
    destruct t as [|[|[|n]]].
    + exists ws. auto.
    + exists (ws ++ [false]). cbn [writes digitalWrite task].
      rewrite app_assoc. split; [reflexivity|]. split.
      * pose proof (alternates_snoc ws true Ha) as Hs.
        rewrite He in Hs. exact Hs.
      * rewrite length_app, Nat.add_comm. cbn [length Nat.add].
        rewrite Nat.even_succ, <- Nat.negb_even, He. reflexivity.
    + exists (ws ++ [false]). cbn [writes digitalWrite task].
      rewrite app_assoc. split; [reflexivity|]. split.
      * pose proof (alternates_snoc ws true Ha) as Hs.
        rewrite He in Hs. exact Hs.
      * rewrite length_app, Nat.add_comm. cbn [length Nat.add].
        rewrite Nat.even_succ, <- Nat.negb_even, He. reflexivity.
    + exists ws. auto.
Qed.

Lemma led_run_one_in_flight (flash : nat) (ws0 : list bool)
    (ms : list Moment) :
  forall l : Led, Forall pulse_or_tick ms -> one_in_flight ws0 l ->
    one_in_flight ws0 (led_run flash ms l).
Proof.
  induction ms as [|m ms IH]; intros l Hms Hl; [exact Hl|].
  inversion Hms as [|m' ms' Hm Hms']; subst.
  apply (IH (led_step flash l m) Hms').
  apply led_step_one_in_flight; assumption.
Qed.

Lemma pulse_started (flash k : nat) (l : Led) :
  task l = Suspended -> (k < flash)%nat ->
  led_run flash (Calls "2" :: replicate k Tick) l
  = mkLed (Delayed (flash - k)) (writes l ++ [true]).
Proof.
  intros Ht Hk. destruct l as [t ws]; simpl in Ht; subst t.
  change (led_run flash (Calls "2" :: replicate k Tick) (mkLed Suspended ws))
    with (led_run flash (replicate k Tick)
            (mkLed (Delayed flash) (ws ++ [true]))).
  apply ticks_delayed, Hk.
Qed.

(** C6.  Pulses are not queued.  With the LED task suspended, let
    [updateLED('2')] be called and fewer ticks pass than
    [LED_TIME_FLASH_ON], so that the task is still inside its
    [vTaskDelay].  A second [updateLED('2')] then changes nothing: whatever
    follows goes as if it had not been made.  With the ticks that remain of
    the delay, the two calls have given one [digitalWrite(LED_RADIO, HIGH)]
    and one [digitalWrite(LED_RADIO, LOW)], and the task is suspended
    again.  And over any run of pulse requests and ticks, the writes to the
    LED alternate, HIGH first: no pulse starts before the one before it has
    ended. *)
Theorem pulse_not_queued (flash k : nat) (l : Led) (rest ms : list Moment) :
  task l = Suspended -> (k < flash)%nat -> Forall pulse_or_tick ms ->
  let first := Calls "2" :: replicate k Tick in
  let both := led_run flash
                (first ++ Calls "2" :: replicate (flash - k) Tick) l in
  led_run flash (first ++ Calls "2" :: rest) l
  = led_run flash (first ++ rest) l
  /\ writes both = writes l ++ [true; false]
  /\ task both = Suspended
  /\ exists ws, writes (led_run flash ms l) = writes l ++ ws
                /\ alternates true ws = true.
Proof.
  intros Ht Hk Hms first both.
  assert (Hfirst : led_run flash first l
                   = mkLed (Delayed (flash - k)) (writes l ++ [true]))
    by (apply pulse_started; assumption).
  assert (Hboth : both = mkLed Suspended (writes l ++ [true; false])).
  { unfold both. rewrite led_run_app, Hfirst.
    change (led_run flash (Calls "2" :: replicate (flash - k) Tick)
              (mkLed (Delayed (flash - k)) (writes l ++ [true])))
      with (led_run flash (replicate (flash - k) Tick)
              (mkLed (Delayed (flash - k)) (writes l ++ [true]))).
    destruct (flash - k)%nat as [|n] eqn:Hn; [lia|].
    rewrite ticks_expire, <- app_assoc. reflexivity. }
  split; [|split; [|split]].
  - rewrite !led_run_app, Hfirst. reflexivity.
  - rewrite Hboth. reflexivity.
  - rewrite Hboth. reflexivity.
  - destruct (led_run_one_in_flight flash (writes l) ms l Hms)
      as (ws & Hw & Ha & _).
    + exists []. rewrite app_nil_r, Ht. auto.
    + exists ws. auto.
Qed.

Lemma pulse_not_queued_witness :
  let l := mkLed Suspended [] in
  let first := Calls "2" :: replicate 40 Tick in
  led_run 100 (first ++ [Calls "2"; Tick; Calls "2"]) l
  = led_run 100 (first ++ [Tick; Calls "2"]) l
  /\ writes (led_run 100 (first ++ Calls "2" :: replicate 60 Tick) l)
     = [true; false].
Proof.
  destruct (pulse_not_queued 100 40 (mkLed Suspended []) [Tick; Calls "2"]
              [Calls "2"; Tick; Calls "2"; Tick])
    as (Hsame & Hw & _).
  - reflexivity.
  - lia.
  - repeat (constructor; [first [left; reflexivity | right; reflexivity]|]).
    constructor.
  - split; [exact Hsame | exact Hw].
Defined.

(** * More properties of the code *)

(** ** What the relay leaves alone *)

Lemma relay_byte_console_view (c : ascii) (st : State) :
  console_view (relay_byte c st) = console_view st.
Proof.
  unfold relay_byte, store_rtcm, updateLED, emit; simpl.
  destruct (Ascii.eqb c xD3); simpl;
    repeat match goal with
           | |- context [if ?b then _ else _] => destruct b; simpl
           end; reflexivity.
Qed.

(** ** What does not touch the relay's state *)

Lemma pairs_ind (P : list ascii -> Prop) :
  P [] -> (forall c, P [c]) -> (forall c d rx, P rx -> P (c :: d :: rx)) ->
  forall rx, P rx.
Proof.
  intros Hnil Hone Hstep rx.
  assert (H : P rx /\ forall c, P (c :: rx)); [|apply H].
  induction rx as [|d rx [IH1 IH2]]; split; auto.
Qed.

Lemma led_loop_relay_view (rx : list ascii) :
  forall st, relay_view (led_loop rx st) = relay_view st.
Proof.
  induction rx as [|c|c d rx IH] using pairs_ind; intros st; simpl;
    repeat match goal with
           | |- context [if ?b then _ else _] => destruct b
           end;
    rewrite ?IH; reflexivity.
Qed.

Lemma write_string_relay_view (s : string) :
  forall st, relay_view (write_string s st) = relay_view st.
Proof. induction s as [|c s IH]; intros st; simpl; rewrite ?IH; reflexivity. Qed.

Lemma show_reply_relay_view (r : list ascii) :
  forall st, relay_view (show_reply r st) = relay_view st.
Proof.
  induction r as [|c r IH]; intros st; simpl; [reflexivity|].
  rewrite IH. destruct (negb (code c =? 255) && (0 <? posn st)); reflexivity.
Qed.

Lemma await_reply_relay_view (st : State) :
  relay_view (snd (await_reply st)) = relay_view st.
Proof. unfold await_reply; simpl. destruct (hc12_replies st); reflexivity. Qed.

Lemma led_test_relay_view (st : State) :
  relay_view (led_test st) = relay_view st.
Proof. unfold led_test. rewrite led_loop_relay_view. reflexivity. Qed.

Lemma switch_command_relay_view (i : nat) (name : string) (st : State) :
  relay_view (switch_command i name st) = relay_view st.
Proof. do 4 (destruct i as [|i]; [reflexivity|]). reflexivity. Qed.

Lemma checkRTCMtoRadio_console_view (st : State) :
  console_view (checkRTCMtoRadio st) = console_view st.
Proof.
  unfold checkRTCMtoRadio. destruct (serial0_rx st) as [|c q] eqn:Hq;
    [reflexivity|].
  rewrite relay_byte_console_view. reflexivity.
Qed.

(** ** One capture, from its opening preamble to the closing one *)

Lemma captured_store (sentence : list ascii) (c : ascii) :
  (length sentence < Z.to_nat RTCM_SIZE)%nat ->
  <[length sentence := c]> (captured sentence) = captured (sentence ++ [c]).
Proof.
  intros Hlen. unfold captured.
  rewrite <- (Nat.add_0_r (length sentence)) at 1. rewrite insert_app_r.
  rewrite length_app; simpl length.
  destruct (Z.to_nat RTCM_SIZE - length sentence)%nat as [|k] eqn:Hk; [lia|].
  replace (Z.to_nat RTCM_SIZE - (length sentence + 1))%nat with k by lia.
  simpl. rewrite <- app_assoc. reflexivity.
Qed.



(** With a capture open and room left, a byte that is no preamble is stored
    behind the bytes captured so far, and nothing else happens. *)
Lemma relay_byte_capture (c : ascii) (sentence : list ascii) (st : State) :
  c <> xD3 -> preamble st = 1 ->
  byteCount st = Z.of_nat (length sentence) ->
  rtcmSentence st = captured sentence ->
  (length sentence < Z.to_nat RTCM_SIZE)%nat ->
  let st' := relay_byte c st in
  preamble st' = 1
  /\ byteCount st' = Z.of_nat (length (sentence ++ [c]))
  /\ rtcmSentence st' = captured (sentence ++ [c])
  /\ trace st' = trace st ++ echo c.
Proof.
  intros Hc Hp Hb Hbuf Hlen.
  destruct st as [sc rs fL fR fD fS cmd pn pre bc urx s0rx hc p tr].
  simpl in Hp, Hb, Hbuf. subst pre bc rs.
  apply Ascii.eqb_neq in Hc.
  unfold relay_byte, store_rtcm, emit; simpl. rewrite Hc; simpl.
  assert (Hin : (Z.of_nat (length sentence) <? RTCM_SIZE) = true)
    by (apply Z.ltb_lt; lia).
  rewrite Hin; simpl. rewrite Nat2Z.id, captured_store by exact Hlen.
  repeat split.
  - rewrite length_app; simpl length. unfold uint16, RTCM_SIZE in *.
    rewrite Z.mod_small; lia.
  - rewrite <- app_assoc. reflexivity.
Qed.

Lemma capture_run (body : list ascii) :
  forall (sentence rest : list ascii) (st : State),
    plain body -> preamble st = 1 ->
    byteCount st = Z.of_nat (length sentence) ->
    rtcmSentence st = captured sentence ->
    serial0_rx st = body ++ rest ->
    (length sentence + length body <= Z.to_nat RTCM_SIZE)%nat ->
    exists st1,
      drain st = drain st1 /\ serial0_rx st1 = rest
      /\ preamble st1 = 1
      /\ byteCount st1 = Z.of_nat (length (sentence ++ body))
      /\ rtcmSentence st1 = captured (sentence ++ body)
      /\ trace st1 = trace st ++ flat_map echo body
      /\ console_view st1 = console_view st.
Proof.
  induction body as [|c body IH];
    intros sentence rest st Hplain Hp Hb Hbuf Hrx Hlen.
  - exists st. rewrite !app_nil_r. simpl in Hrx. repeat split; assumption.
  - inversion Hplain as [|? ? Hc Hplain']; subst.
    simpl length in Hlen.
    destruct (relay_byte_capture c sentence
                (set_serial0_rx (body ++ rest) st) Hc Hp Hb Hbuf)
      as (Hp1 & Hb1 & Hbuf1 & Ht1); [lia|].
    destruct (IH (sentence ++ [c]) rest
                 (relay_byte c (set_serial0_rx (body ++ rest) st)))
      as (st1 & Hdrain & Hrx1 & Hp2 & Hb2 & Hbuf2 & Ht2 & Hcv);
      try assumption.
    + rewrite relay_byte_serial0_rx. reflexivity.
    + rewrite length_app; simpl length. lia.
    + exists st1. rewrite <- app_assoc in Hb2, Hbuf2. simpl in Hb2, Hbuf2.
      repeat split; try assumption.
      * rewrite (drain_cons st c (body ++ rest)) by exact Hrx. exact Hdrain.
      * rewrite Ht2, Ht1. simpl. rewrite <- app_assoc. reflexivity.
      * rewrite Hcv, relay_byte_console_view. reflexivity.
Qed.

(** The opening preamble, with no capture open. *)
Lemma relay_byte_open (st : State) :
  idle st ->
  let st' := relay_byte xD3 st in
  preamble st' = 1 /\ byteCount st' = 1
  /\ rtcmSentence st' = captured [xD3]
  /\ trace st' = trace st ++ echo xD3.
Proof.
  intros (Hp & Hb & Hbuf).
  destruct st as [sc rs fL fR fD fS cmd pn pre bc urx s0rx hc p tr].
  simpl in Hp, Hb, Hbuf. subst pre bc rs.
  unfold relay_byte, store_rtcm, emit; simpl.
  repeat split. rewrite <- app_assoc. reflexivity.
Qed.

(** X3.  A capture stays inside the buffer.  With no capture open and
    nothing waiting, a preamble followed by up to 299 bytes that are no
    preamble is relayed and captured byte for byte: the buffer holds the
    sentence from its start, the rest of it zero, [byteCount] is its length,
    and nothing happens but the relay of the bytes (no store past the end,
    no pulse, no print). *)
Theorem capture_in_bounds (st : State) (body : list ascii) :
  idle st -> serial0_rx st = [] -> plain body ->
  (length body < Z.to_nat RTCM_SIZE)%nat ->
  let st' := drain (arrive0 (xD3 :: body) st) in
  preamble st' = 1
  /\ byteCount st' = Z.of_nat (length (xD3 :: body))
  /\ rtcmSentence st' = captured (xD3 :: body)
  /\ trace st' = trace st ++ flat_map echo (xD3 :: body)
  /\ console_view st' = console_view st.
Proof.
  intros Hidle Hrx Hplain Hlen st'. unfold st'.
  rewrite (drain_cons (arrive0 (xD3 :: body) st) xD3 body)
    by (unfold arrive0; simpl; rewrite Hrx; reflexivity).
  set (s0 := set_serial0_rx body (arrive0 (xD3 :: body) st)).
  destruct (relay_byte_open s0 Hidle) as (Hp1 & Hb1 & Hbuf1 & Ht1).
  destruct (capture_run body [xD3] [] (relay_byte xD3 s0))
    as (st1 & Hdrain & Hrx1 & Hp2 & Hb2 & Hbuf2 & Ht2 & Hcv);
    try assumption.
  - rewrite relay_byte_serial0_rx, app_nil_r. reflexivity.
  - rewrite Hdrain, (drain_nil st1 Hrx1).
    repeat split; try assumption.
    + rewrite Ht2, Ht1. simpl. rewrite <- app_assoc. reflexivity.
    + rewrite Hcv, relay_byte_console_view. reflexivity.
Qed.

Lemma capture_in_bounds_witness :
  let st' := drain (arrive0 [xD3; NUL; "019"; ">"; "208"]%char initial) in
  preamble st' = 1 /\ byteCount st' = 5
  /\ rtcmSentence st' = captured [xD3; NUL; "019"; ">"; "208"]%char.
Proof.
  destruct (capture_in_bounds initial [NUL; "019"; ">"; "208"]%char)
    as (Hp & Hb & Hbuf & _).
  - repeat split.
  - reflexivity.
  - repeat constructor; discriminate.
  - unfold RTCM_SIZE. simpl. lia.
  - split; [exact Hp|]. split; [exact Hb | exact Hbuf].
Defined.





(** ** The layout of the message type *)

Lemma lor_high_low (q r : Z) :
  0 <= q -> 0 <= r < 16 -> Z.lor (Z.shiftl q 4) r = q * 16 + r.
Proof.
  intros Hq Hr.
  assert (Hland : Z.land (Z.shiftl q 4) r = 0).
  { apply Z.bits_inj'. intros n Hn. rewrite Z.land_spec, Z.bits_0.
    destruct (Z.lt_ge_cases n 4) as [Hlow | Hhigh].
    - rewrite Z.shiftl_spec_low by lia. reflexivity.
    - replace (Z.testbit r n) with false; [apply Bool.andb_false_r|].
      symmetry. destruct (Z.eq_dec r 0) as [-> | Hne]; [apply Z.bits_0|].
      apply Z.bits_above_log2; [lia|].
      assert (Z.log2 r < 4) by (apply Z.log2_lt_pow2; lia). lia. }
  pose proof (Z.add_lor_land (Z.shiftl q 4) r) as Hsum.
  rewrite Hland, Z.shiftl_mul_pow2 in Hsum by lia.
  change (2 ^ 4) with 16 in Hsum. rewrite Z.shiftl_mul_pow2 by lia.
  change (2 ^ 4) with 16. lia.
Qed.

Lemma code_ascii_of (n : Z) :
  0 <= n < 256 -> code (ascii_of_N (Z.to_N n)) = n.
Proof.
  intros Hn. unfold code. rewrite N_ascii_embedding by lia. lia.
Qed.

(** X5.  Extraction inverts the header layout.  For every type code [t] of
    twelve bits, a buffer that starts with 0xD3 and has [t >> 4] as byte 3
    and the low four bits of [t] as the high four bits of byte 4 yields [t],
    whatever bytes 1 and 2, the low four bits of byte 4 and the bytes after
    it are. *)
Theorem message_type_round_trip (t low : Z) (b1 b2 : ascii)
    (rest : list ascii) :
  0 <= t < 4096 -> 0 <= low < 16 ->
  rtcm3GetMessageType
    (xD3 :: b1 :: b2 :: ascii_of_N (Z.to_N (t / 16))
         :: ascii_of_N (Z.to_N (t mod 16 * 16 + low)) :: rest)
  = Some t.
Proof.
  intros Ht Hlow. rewrite rtcm3GetMessageType_preamble. f_equal.
  assert (Hq : 0 <= t / 16 < 256)
    by (split; [apply Z.div_pos | apply Z.div_lt_upper_bound]; lia).
  pose proof (Z.mod_pos_bound t 16 ltac:(lia)) as Hr.
  rewrite !code_ascii_of by lia.
  rewrite Z.shiftr_div_pow2 by lia. change (2 ^ 4) with 16.
  replace ((t mod 16 * 16 + low) / 16) with (t mod 16)
    by (rewrite Z.div_add_l by lia; rewrite (Z.div_small low) by lia; lia).
  rewrite lor_high_low by lia.
  pose proof (Z.div_mod t 16 ltac:(lia)). lia.
Qed.

Lemma message_type_round_trip_witness :
  rtcm3GetMessageType [xD3; NUL; "019"; "C"; "161"]%char = Some 1082.
Proof.
  apply (message_type_round_trip 1082 1 NUL "019"%char []); lia.
Defined.

(** ** What the test loops and the console may do *)

Lemma extends_refl (P : Event -> bool) (st : State) : extends P st st.
Proof. exists []. rewrite app_nil_r. split; reflexivity. Qed.

Lemma extends_trans (P : Event -> bool) (st1 st2 st3 : State) :
  extends P st1 st2 -> extends P st2 st3 -> extends P st1 st3.
Proof.
  intros (es1 & H1 & HP1) (es2 & H2 & HP2). exists (es1 ++ es2). split.
  - rewrite H2, H1, <- app_assoc. reflexivity.
  - rewrite forallb_app, HP1, HP2. reflexivity.
Qed.

Lemma extends_mono (P Q : Event -> bool) (st st' : State) :
  (forall e, P e = true -> Q e = true) -> extends P st st' -> extends Q st st'.
Proof.
  intros HPQ (es & Ht & HP). exists es. split; [exact Ht|].
  rewrite forallb_forall in *. intros e He. apply HPQ, HP, He.
Qed.

(** Closes a goal [extends P st st'] where [st'] is [st] under setters and
    [emit]s of events that [P] allows. *)
Lemma extends_same (P : Event -> bool) (st st' : State) :
  trace st' = trace st -> extends P st st'.
Proof. intros Ht. exists []. rewrite app_nil_r. split; [exact Ht|reflexivity]. Qed.

Ltac ext_now :=
  first
    [ apply extends_same; reflexivity
    | eexists; split;
      [simpl; rewrite <- ?app_assoc; reflexivity | reflexivity] ].

Ltac ext_then IH :=
  eapply extends_trans; [|apply IH]; ext_now.

Lemma led_loop_extends (rx : list ascii) :
  forall st, extends led_event st (led_loop rx st).
Proof.
  induction rx as [|c|c d rx IH] using pairs_ind; intros st; simpl;
    repeat match goal with
           | |- context [if ?b then _ else _] => destruct b
           end;
    first [ext_now | ext_then IH].
Qed.

Lemma led_loop_fields (rx : list ascii) :
  forall st,
    let st' := led_loop rx st in
    (testRad st', debugRad st', reset st', command st', posn st',
     hc12_replies st')
    = (testRad st, debugRad st, reset st, command st, posn st,
       hc12_replies st).
Proof.
  induction rx as [|c|c d rx IH] using pairs_ind; intros st; simpl;
    repeat match goal with
           | |- context [if ?b then _ else _] => destruct b
           end;
    first [reflexivity | exact (IH _)].
Qed.

Lemma led_loop_leaves (rx : list ascii) :
  forall st,
    let st' := led_loop rx st in
    (pc st' = InLoop /\ testLEDr st' = false /\ In EXIT_TEST rx)
    \/ (pc st' = InLedTest /\ testLEDr st' = testLEDr st /\ usb_rx st' = []).
Proof.
  induction rx as [|c|c d rx IH] using pairs_ind; intros st; simpl;
    try (right; repeat split; reflexivity).
  - destruct (Ascii.eqb_spec c EXIT_TEST) as [-> | _].
    + left. repeat split. left. reflexivity.
    + repeat match goal with
             | |- context [if ?b then _ else _] => destruct b
             end; right; repeat split; reflexivity.
  - destruct (Ascii.eqb_spec c EXIT_TEST) as [-> | _].
    + left. repeat split. left. reflexivity.
    + repeat match goal with
             | |- context [if ?b then _ else _] => destruct b
             end;
        match goal with
        | |- context [led_loop rx ?s] =>
          destruct (IH s) as [(Hpc & Hflag & Hin) | (Hpc & Hflag & Hrx)];
            [left; repeat split; auto | right; repeat split; auto]
        end.
Qed.

(** X6.  The LED test keeps to the LED.  Over any console input, from any
    state, the [while (true)] of the LED test only prints, drives the LED,
    resumes the LED task and waits: it writes nothing to Serial1, reads
    nothing from Serial0 and stores into no buffer; it leaves the relay's
    state, the other three flags, the command buffer, [posn] and the replies
    of the HC-12 as they are; and it either returns to [loop()], which it
    does only when a [!] was among the input and then with [testLEDr]
    clear, or has used up the input and waits inside, [testLEDr] as it
    was. *)
Theorem led_test_contained (rx : list ascii) (st : State) :
  let st' := led_loop rx st in
  extends led_event st st'
  /\ relay_view st' = relay_view st
  /\ (testRad st', debugRad st', reset st', command st', posn st',
      hc12_replies st')
     = (testRad st, debugRad st, reset st, command st, posn st,
        hc12_replies st)
  /\ ((pc st' = InLoop /\ testLEDr st' = false /\ In EXIT_TEST rx)
      \/ (pc st' = InLedTest /\ testLEDr st' = testLEDr st
          /\ usb_rx st' = [])).
Proof.
  repeat split.
  - apply led_loop_extends.
  - apply led_loop_relay_view.
  - apply led_loop_fields.
  - apply led_loop_leaves.
Qed.

(** ** The SET pin of the HC-12 *)

Lemma pin_after_app (p : bool) (s t : list Event) :
  pin_after p (s ++ t) = pin_after (pin_after p s) t.
Proof.
  revert p; induction s as [|e s IH]; intros p; [reflexivity|].
  destruct e; simpl; apply IH.
Qed.

Lemma pin_after_no_pin (p : bool) (es : list Event) :
  forallb no_pin es = true -> pin_after p es = p.
Proof.
  induction es as [|e es IH]; [reflexivity|].
  simpl. rewrite andb_true_iff. intros [He Hes].
  destruct e; try discriminate; simpl; apply IH, Hes.
Qed.

Lemma extends_pin_level (st st' : State) :
  extends no_pin st st' -> pin_level st' = pin_level st.
Proof.
  intros (es & Ht & Hes). unfold pin_level.
  rewrite Ht, pin_after_app. apply pin_after_no_pin, Hes.
Qed.

Lemma radio_no_pin (e : Event) : radio_event e = true -> no_pin e = true.
Proof. destruct e; simpl; congruence. Qed.

Lemma led_no_pin (e : Event) : led_event e = true -> no_pin e = true.
Proof. destruct e; simpl; congruence. Qed.

Lemma radio_keeps_trans (st1 st2 st3 : State) :
  radio_keeps st1 st2 -> radio_keeps st2 st3 -> radio_keeps st1 st3.
Proof.
  intros [Hf1 He1] [Hf2 He2]. split; [congruence|].
  eapply extends_trans; eassumption.
Qed.

Ltac keeps_now := split; [reflexivity | ext_now].

Lemma write_string_keeps (s : string) :
  forall st, radio_keeps st (write_string s st).
Proof.
  induction s as [|c s IH]; intros st; simpl; [keeps_now|].
  eapply radio_keeps_trans; [|apply IH]. keeps_now.
Qed.

Lemma show_reply_keeps (r : list ascii) :
  forall st, radio_keeps st (show_reply r st).
Proof.
  induction r as [|c r IH]; intros st; simpl; [keeps_now|].
  destruct (negb (code c =? 255) && (0 <? posn st));
    (eapply radio_keeps_trans; [|apply IH]); keeps_now.
Qed.

Lemma await_reply_keeps (st : State) : radio_keeps st (snd (await_reply st)).
Proof. unfold await_reply. destruct (hc12_replies _); keeps_now. Qed.

Lemma store_command_keeps (c : ascii) (st : State) :
  radio_keeps st (store_command c st).
Proof. unfold store_command. destruct (posn st <? COMMAND_SIZE); keeps_now. Qed.

(** The radio test either comes back, the pin set HIGH last of all and
    [testRad] clear, or waits inside, having left the pin alone. *)
Lemma radio_loop_outcome (rx : list ascii) :
  forall st,
    let st' := radio_loop rx st in
    (pc st' = InLoop /\ testRad st' = false
     /\ exists st1, extends radio_event st st1
                    /\ trace st' = trace st1 ++ [SetPin true])
    \/ (pc st' = InRadioTest /\ usb_rx st' = [] /\ radio_keeps st st').
Proof.
  induction rx as [|c rx IH]; intros st; cbn zeta.
  - right. repeat split. ext_now.
  - cbn [radio_loop].
    destruct (Ascii.eqb (toupper c) EXIT_TEST).
    + left. repeat split.
      exists (emit (Println ("HC-12 command mode disabled." ++ nl))
                   (set_serialChar (toupper c) st)).
      split; [ext_now | reflexivity].
    + assert (Hgo : forall s, radio_keeps st s ->
               (pc (radio_loop rx s) = InLoop
                /\ testRad (radio_loop rx s) = false
                /\ exists st1, extends radio_event st st1
                     /\ trace (radio_loop rx s) = trace st1 ++ [SetPin true])
               \/ (pc (radio_loop rx s) = InRadioTest
                   /\ usb_rx (radio_loop rx s) = []
                   /\ radio_keeps st (radio_loop rx s))).
      { intros s Hs.
        destruct (IH s) as [(Hpc & Hf & st1 & Hext & Ht) | (Hpc & Hrx & Hk)].
        - left. repeat split; try assumption.
          exists st1. split; [|exact Ht].
          eapply extends_trans; [apply Hs | exact Hext].
        - right. repeat split; try assumption.
          + destruct Hs, Hk. congruence.
          + eapply extends_trans; [apply Hs | apply Hk]. }
      destruct (Ascii.eqb (toupper c) LF).
      * destruct (await_reply _) as [r s1] eqn:Hr.
        apply Hgo.
        match type of Hr with
        | await_reply (emit ?p (write_string ?s ?st0)) = _ =>
          apply (radio_keeps_trans _ (show_reply r s1)); [|keeps_now];
          apply (radio_keeps_trans _ s1); [|apply show_reply_keeps];
          apply (radio_keeps_trans _ (emit p (write_string s st0)));
            [|change s1 with (snd (r, s1)); rewrite <- Hr;
              apply await_reply_keeps];
          apply (radio_keeps_trans _ (write_string s st0)); [|keeps_now];
          apply (radio_keeps_trans _ st0);
            [keeps_now | apply write_string_keeps]
        end.
      * apply Hgo.
        destruct (negb (code (toupper c) =? 255)); [|keeps_now].
        match goal with
        | |- radio_keeps _ (set_posn _ (store_command ?c' ?s)) =>
          apply (radio_keeps_trans _ (store_command c' s)); [|keeps_now];
          apply (radio_keeps_trans _ s);
            [keeps_now | apply store_command_keeps]
        end.
Qed.

Lemma radio_loop_pin (rx : list ascii) (st : State) :
  let st' := radio_loop rx st in
  (pc st' = InLoop /\ testRad st' = false /\ pin_level st' = true)
  \/ (pc st' = InRadioTest /\ usb_rx st' = []
      /\ pin_level st' = pin_level st).
Proof.
  destruct (radio_loop_outcome rx st)
    as [(Hpc & Hf & st1 & _ & Ht) | (Hpc & Hrx & _ & Hext)].
  - left. repeat split; try assumption.
    unfold pin_level. rewrite Ht, pin_after_app. reflexivity.
  - right. repeat split; try assumption.
    apply extends_pin_level. eapply extends_mono; [apply radio_no_pin|].
    exact Hext.
Qed.

Lemma radio_test_pin (st : State) :
  let st' := radio_test st in
  (pc st' = InLoop /\ testRad st' = false /\ pin_level st' = true)
  \/ (pc st' = InRadioTest /\ usb_rx st' = [] /\ pin_level st' = false).
Proof.
  unfold radio_test.
  destruct (await_reply _) as [r s1] eqn:Hr.
  match goal with
  | |- context [radio_loop ?rx ?s2] =>
    assert (Hlow : pin_level s2 = false);
      [|destruct (radio_loop_pin rx s2)
          as [(Hpc & Hf & Hpin) | (Hpc & Hrx & Hpin)];
        [left; repeat split; assumption
        |right; repeat split; try assumption; congruence]]
  end.
  assert (Hs1 : pin_level s1 = false).
  { change s1 with (snd (r, s1)). rewrite <- Hr.
    rewrite (extends_pin_level _ _
               (extends_mono _ _ _ _ radio_no_pin
                  (proj2 (await_reply_keeps _)))).
    unfold pin_level, emit; simpl. rewrite !pin_after_app. reflexivity. }
  unfold pin_level in *. simpl. rewrite pin_after_app, Hs1. reflexivity.
Qed.

Lemma relay_byte_extends (c : ascii) (st : State) :
  extends relay_event st (relay_byte c st).
Proof.
  unfold relay_byte, store_rtcm, updateLED, emit; simpl.
  destruct (Ascii.eqb c xD3); simpl;
    repeat match goal with
           | |- context [if ?b then _ else _] => destruct b; simpl
           end; ext_now.
Qed.

Lemma checkRTCMtoRadio_extends (st : State) :
  extends relay_event st (checkRTCMtoRadio st).
Proof.
  unfold checkRTCMtoRadio. destruct (serial0_rx st) as [|c q];
    [apply extends_refl|].
  eapply extends_trans; [|apply relay_byte_extends]. ext_now.
Qed.

Lemma relay_no_pin (e : Event) : relay_event e = true -> no_pin e = true.
Proof. destruct e; simpl; congruence. Qed.

Lemma radio_mode_ok_kept (st st' : State) :
  pc st' = pc st -> extends no_pin st st' ->
  radio_mode_ok st -> radio_mode_ok st'.
Proof.
  unfold radio_mode_ok. intros Hpc Hext Hok.
  rewrite (extends_pin_level _ _ Hext), Hpc. exact Hok.
Qed.

Lemma switch_command_outcome (i : nat) (name : string) (st : State) :
  extends no_pin st (switch_command i name st)
  /\ (pc (switch_command i name st) = pc st
      \/ pc (switch_command i name st) = Restarted).
Proof.
  do 4 (destruct i as [|i]; [split; [ext_now | auto]|]).
  split; [ext_now | auto].
Qed.

Lemma led_test_ok (st : State) :
  pin_level st = true -> radio_mode_ok (led_test st).
Proof.
  intros Hpin. unfold led_test, radio_mode_ok.
  match goal with
  | |- context [led_loop ?rx ?s] =>
    destruct (led_loop_leaves rx s) as [(Hpc & _) | (Hpc & _)];
      rewrite Hpc;
      rewrite (extends_pin_level s _
                 (extends_mono _ _ _ _ led_no_pin (led_loop_extends rx s)))
  end;
    (rewrite (extends_pin_level st (emit led_instructions st)) by ext_now);
    exact Hpin.
Qed.

Lemma radio_test_ok (st : State) : radio_mode_ok (radio_test st).
Proof.
  unfold radio_mode_ok.
  destruct (radio_test_pin st) as [(Hpc & _ & Hpin) | (Hpc & _ & Hpin)];
    rewrite Hpc, Hpin; reflexivity.
Qed.

Lemma command_loop_ok (names : list string) :
  forall (i : nat) (st : State),
    pc st = InLoop -> pin_level st = true ->
    radio_mode_ok (snd (command_loop i names st)).
Proof.
  induction names as [|name names IH]; intros i st Hpc Hpin.
  - unfold radio_mode_ok. simpl. rewrite Hpc. exact Hpin.
  - cbn [command_loop].
    destruct (String.eqb (cstr (command st)) name); [|apply IH; assumption].
    destruct (switch_command_outcome i name st) as [Hext Hpc'].
    pose proof (extends_pin_level _ _ Hext) as Hpin'. rewrite Hpin in Hpin'.
    assert (Hsame : radio_mode_ok (switch_command i name st)).
    { unfold radio_mode_ok. rewrite Hpin'.
      destruct Hpc' as [-> | ->]; [rewrite Hpc|]; reflexivity. }
    destruct (pc (switch_command i name st)) eqn:Hp; try exact Hsame;
      destruct (testRad (switch_command i name st));
      cbn [snd]; try apply radio_test_ok;
      destruct (testLEDr (switch_command i name st));
      cbn [snd]; try (apply led_test_ok; exact Hpin'); exact Hsame.
Qed.

Lemma dispatch_ok (st : State) :
  pc st = InLoop -> pin_level st = true -> radio_mode_ok (snd (dispatch st)).
Proof.
  intros Hpc Hpin.
  assert (Hok : radio_mode_ok st)
    by (unfold radio_mode_ok; rewrite Hpc; exact Hpin).
  unfold dispatch.
  destruct (contains QUERY (cstr (command st)));
    [apply (radio_mode_ok_kept st); [reflexivity | ext_now | exact Hok]|].
  destruct (contains EXIT_TEST (cstr (command st)));
    [apply (radio_mode_ok_kept st); [reflexivity | ext_now | exact Hok]|].
  pose proof (command_loop_ok COMMANDS 0 st Hpc Hpin) as Hloop.
  destruct (command_loop 0 COMMANDS st) as [[which left] st1].
  cbn [snd] in Hloop. destruct left; [exact Hloop|].
  destruct (nonempty (cstr (command st1))
            && match which with None => true | Some _ => false end);
    [|exact Hloop].
  apply (radio_mode_ok_kept st1); [reflexivity | ext_now | exact Hloop].
Qed.

Lemma checkSerialUSB_ok (st : State) :
  pc st = InLoop -> radio_mode_ok st -> radio_mode_ok (checkSerialUSB st).
Proof.
  intros Hpc Hok.
  assert (Hpin : pin_level st = true)
    by (unfold radio_mode_ok in Hok; rewrite Hpc in Hok; exact Hok).
  unfold checkSerialUSB. destruct (usb_rx st) as [|c rest]; [exact Hok|].
  destruct (Ascii.eqb c LF || Ascii.eqb c CR).
  - destruct (0 <? posn _).
    + pose proof (dispatch_ok (set_serialChar c (set_usb_rx rest st))
                    Hpc Hpin) as Hd.
      destruct (dispatch _) as [left st1]. cbn [snd] in Hd.
      destruct left; [exact Hd|].
      apply (radio_mode_ok_kept st1); [reflexivity | ext_now | exact Hd].
    + apply (radio_mode_ok_kept st); [reflexivity | ext_now | exact Hok].
  - unfold store_command. destruct (posn _ <? COMMAND_SIZE);
      (apply (radio_mode_ok_kept st); [reflexivity | ext_now | exact Hok]).
Qed.

Lemma console_step_ok (st : State) :
  radio_mode_ok st -> radio_mode_ok (console_step st).
Proof.
  intros Hok. unfold console_step. destruct (pc st) eqn:Hpc.
  - apply checkSerialUSB_ok; assumption.
  - unfold radio_mode_ok in *. rewrite Hpc in Hok.
    destruct (radio_loop_pin (usb_rx st) st)
      as [(Hpc' & _ & Hpin) | (Hpc' & _ & Hpin)];
      rewrite Hpc', Hpin; [reflexivity | exact Hok].
  - unfold radio_mode_ok in *. rewrite Hpc in Hok.
    rewrite (extends_pin_level st _
               (extends_mono _ _ _ _ led_no_pin
                  (led_loop_extends (usb_rx st) st))), Hok.
    destruct (led_loop_leaves (usb_rx st) st) as [(-> & _) | (-> & _)];
      reflexivity.
  - exact Hok.
Qed.

Lemma step_ok (st : State) : radio_mode_ok st -> radio_mode_ok (step st).
Proof.
  intros Hok. apply console_step_ok in Hok. unfold step.
  destruct (pc (console_step st)) eqn:Hpc; try exact Hok.
  apply (radio_mode_ok_kept (console_step st)); [| |exact Hok].
  - pose proof (checkRTCMtoRadio_console_view (console_step st)) as Hv.
    unfold console_view in Hv. congruence.
  - eapply extends_mono; [apply relay_no_pin|].
    apply checkRTCMtoRadio_extends.
Qed.

(** X7.  The radio is in command mode only inside the radio test.  With
    the SET pin of the HC-12 HIGH when [loop()] starts, as [initPins()]
    leaves it, then whatever reaches the console and Serial0, turn after
    turn: the pin is low exactly while control is inside the radio test,
    and HIGH whenever control is in [loop()], where alone
    [checkRTCMtoRadio] runs, or in the LED test. *)
Theorem radio_transparent_outside_test (inputs : list (string * list ascii))
    (st : State) :
  radio_mode_ok st -> radio_mode_ok (fold_left turn inputs st).
Proof.
  revert st; induction inputs as [|input inputs IH]; intros st Hok;
    [exact Hok|].
  cbn [fold_left]. apply IH. unfold turn. apply step_ok. exact Hok.
Qed.

Lemma radio_transparent_outside_test_witness :
  let typed := (("testRad" ++ nl)%string, []) :: replicate 7 (EmptyString, []) in
  let inside := fold_left turn typed initial in
  let out := fold_left turn
               (typed ++ [("at" ++ nl, [xD3]); ("!" ++ nl, [])]%string)
               initial in
  (pc inside = InRadioTest /\ pin_level inside = false)
  /\ (pc out = InLoop /\ pin_level out = true
      /\ sent1 (trace out) = [LF; "A"; "T"; xD3]%char)
  /\ radio_mode_ok out.
Proof.
  split; [split; reflexivity|]. split; [repeat split|].
  apply (radio_transparent_outside_test
           ((("testRad" ++ nl)%string, []) :: replicate 7 (EmptyString, [])
            ++ [("at" ++ nl, [xD3]); ("!" ++ nl, [])]%string)
           initial).
  reflexivity.
Defined.

(** ** What the console never does *)

Lemma radio_console_event (e : Event) :
  radio_event e = true -> console_event e = true.
Proof. destruct e as [| | | | | | | | | |[] i]; simpl; congruence. Qed.

Lemma led_console_event (e : Event) :
  led_event e = true -> console_event e = true.
Proof. destruct e; simpl; congruence. Qed.

Lemma radio_loop_console (rx : list ascii) (st : State) :
  extends console_event st (radio_loop rx st).
Proof.
  destruct (radio_loop_outcome rx st)
    as [(_ & _ & st1 & Hext & Ht) | (_ & _ & _ & Hext)].
  - eapply extends_trans;
      [eapply extends_mono; [apply radio_console_event | exact Hext]|].
    exists [SetPin true]. split; [exact Ht | reflexivity].
  - eapply extends_mono; [apply radio_console_event | exact Hext].
Qed.

Lemma radio_test_console (st : State) :
  extends console_event st (radio_test st).
Proof.
  unfold radio_test. destruct (await_reply _) as [r s1] eqn:Hr.
  eapply extends_trans; [|apply radio_loop_console].
  apply (extends_trans _ _ s1); [|ext_now].
  change s1 with (snd (r, s1)). rewrite <- Hr.
  eapply extends_trans;
    [|eapply extends_mono;
      [apply radio_console_event | apply await_reply_keeps]].
  ext_now.
Qed.

Lemma led_test_console (st : State) : extends console_event st (led_test st).
Proof.
  unfold led_test. apply (extends_trans _ _ (emit led_instructions st));
    [ext_now|].
  eapply extends_mono; [apply led_console_event | apply led_loop_extends].
Qed.

Lemma switch_command_console (i : nat) (name : string) (st : State) :
  extends console_event st (switch_command i name st).
Proof. do 4 (destruct i as [|i]; [ext_now|]). ext_now. Qed.

Lemma command_loop_console (names : list string) :
  forall (i : nat) (st : State),
    extends console_event st (snd (command_loop i names st)).
Proof.
  induction names as [|name names IH]; intros i st; [apply extends_refl|].
  cbn [command_loop].
  destruct (String.eqb (cstr (command st)) name); [|apply IH].
  pose proof (switch_command_console i name st) as Hsw.
  destruct (pc (switch_command i name st)); try exact Hsw;
    destruct (testRad (switch_command i name st)); cbn [snd];
    try (eapply extends_trans; [exact Hsw | apply radio_test_console]);
    destruct (testLEDr (switch_command i name st)); cbn [snd];
    try (eapply extends_trans; [exact Hsw | apply led_test_console]);
    exact Hsw.
Qed.

Lemma dispatch_console (st : State) :
  extends console_event st (snd (dispatch st)).
Proof.
  unfold dispatch.
  destruct (contains QUERY (cstr (command st))); [ext_now|].
  destruct (contains EXIT_TEST (cstr (command st))); [ext_now|].
  pose proof (command_loop_console COMMANDS 0 st) as Hloop.
  destruct (command_loop 0 COMMANDS st) as [[which left] st1].
  cbn [snd] in Hloop. destruct left; [exact Hloop|].
  destruct (nonempty (cstr (command st1))
            && match which with None => true | Some _ => false end);
    [|exact Hloop].
  eapply extends_trans; [exact Hloop | ext_now].
Qed.

Lemma checkSerialUSB_console (st : State) :
  extends console_event st (checkSerialUSB st).
Proof.
  unfold checkSerialUSB. destruct (usb_rx st) as [|c rest];
    [apply extends_refl|].
  destruct (Ascii.eqb c LF || Ascii.eqb c CR).
  - destruct (0 <? posn _); [|ext_now].
    pose proof (dispatch_console (set_serialChar c (set_usb_rx rest st)))
      as Hd.
    destruct (dispatch _) as [left st1]. cbn [snd] in Hd.
    apply (extends_trans _ _ (set_serialChar c (set_usb_rx rest st)));
      [ext_now|].
    destruct left; [exact Hd|].
    eapply extends_trans; [exact Hd | ext_now].
  - unfold store_command. destruct (posn _ <? COMMAND_SIZE); ext_now.
Qed.

Lemma console_step_extends (st : State) :
  extends console_event st (console_step st).
Proof.
  unfold console_step. destruct (pc st).
  - apply checkSerialUSB_console.
  - apply radio_loop_console.
  - eapply extends_mono; [apply led_console_event | apply led_loop_extends].
  - apply extends_refl.
Qed.

(** X9.  Which statements run where, as the trace logs them.  In its
    share of a step, from any state and over any input (a call of
    [checkSerialUSB], a dispatch, a whole test loop), the console logs no
    read of Serial0, no dump of a sentence and no store through
    [rtcmSentence[byteCount]] past the buffer's end: the unchecked store of
    [checkRTCMtoRadio] is not the console's.  And a call of
    [checkRTCMtoRadio] logs nothing but reads of Serial0, writes to
    Serial1, the dump, the resume of the LED task and stores through
    [rtcmSentence[byteCount]] past the buffer's end: no print other than
    the dump, no write to a pin, no wait, no restart and no store through
    [command[posn]].  Where a store past an array lands, and what it does
    to other variables, is not part of the statement. *)
Theorem console_step_events (st : State) :
  extends console_event st (console_step st)
  /\ extends relay_event st (checkRTCMtoRadio st).
Proof.
  split; [apply console_step_extends | apply checkRTCMtoRadio_extends].
Qed.

(** ** Runs that keep their stores inside the arrays

    The lemmas of this part follow a store only where it goes inside its
    array; where it goes past the end they conclude from the log alone,
    whatever the store may then have done. *)

Lemma overruns_extends (P : Event -> bool) (st st' : State) :
  extends P st st' -> (overruns st <= overruns st')%nat.
Proof.
  intros (es & Ht & _). unfold overruns.
  rewrite Ht, !out_of_bounds_app, !length_app. lia.
Qed.

Lemma overruns_emit_store (b : Buffer) (i : Z) (st st' : State) :
  trace st' = trace st ++ [StoreOutOfBounds b i] ->
  overruns st' = S (overruns st).
Proof.
  intros Ht. unfold overruns.
  rewrite Ht, !out_of_bounds_app, !length_app. destruct b; simpl; lia.
Qed.

Lemma kept_in_bounds_overruns (st st' : State) :
  kept_in_bounds st st' -> overruns st' = overruns st.
Proof. intros [H1 H2]. unfold overruns. rewrite H1, H2. reflexivity. Qed.

Lemma unless_overrun_free (R : State -> State -> Prop) (P : Event -> bool)
    (st st' : State) :
  extends P st st' -> R st st' -> unless_overrun R st st'.
Proof.
  intros He HR.
  split; [exact (overruns_extends P st st' He) | intros _; exact HR].
Qed.

Lemma unless_overrun_trans (R : State -> State -> Prop) (a b c : State) :
  (forall x y z, R x y -> R y z -> R x z) ->
  unless_overrun R a b -> unless_overrun R b c -> unless_overrun R a c.
Proof.
  intros HR [M1 C1] [M2 C2]. split; [lia|].
  intros H. apply (HR a b c); [apply C1 | apply C2]; lia.
Qed.

Lemma unless_overrun_weaken (R Q : State -> State -> Prop) (a b : State) :
  (forall x y, R x y -> Q x y) -> unless_overrun R a b -> unless_overrun Q a b.
Proof. intros HRQ [M C]. split; [exact M | intros H; apply HRQ, C, H]. Qed.

Lemma relay_untouched_trans (x y z : State) :
  relay_untouched x y -> relay_untouched y z -> relay_untouched x z.
Proof. unfold relay_untouched. congruence. Qed.

Lemma radio_stretch_trans (x y z : State) :
  radio_stretch x y -> radio_stretch y z -> radio_stretch x z.
Proof.
  intros [Hv1 Hk1] [Hv2 Hk2]. split; [congruence|].
  exact (radio_keeps_trans x y z Hk1 Hk2).
Qed.

Lemma radio_stretch_free (st st' : State) :
  relay_view st' = relay_view st -> radio_keeps st st' ->
  unless_overrun radio_stretch st st'.
Proof.
  intros Hv Hk. apply (unless_overrun_free _ radio_event);
    [apply Hk | split; assumption].
Qed.

(** The store of the console: inside [command], or logged. *)
Lemma store_command_in_bounds (c : ascii) (st : State) :
  unless_overrun radio_stretch st (store_command c st).
Proof.
  unfold store_command. destruct (posn st <? COMMAND_SIZE).
  - apply radio_stretch_free; [reflexivity | keeps_now].
  - match goal with
    | |- unless_overrun _ _ ?st' =>
      assert (Ho : overruns st' = S (overruns st))
        by (apply (overruns_emit_store Command (posn st)); reflexivity)
    end.
    split; [lia | intros H; lia].
Qed.

Lemma radio_loop_in_bounds (rx : list ascii) :
  forall st,
    unless_overrun
      (fun a b => relay_view b = relay_view a /\ radio_outcome a b)
      st (radio_loop rx st).
Proof.
  induction rx as [|c rx IH]; intros st.
  - apply (unless_overrun_free _ radio_event); [ext_now|].
    split; [reflexivity|]. right. repeat split. ext_now.
  - cbn [radio_loop].
    destruct (Ascii.eqb (toupper c) EXIT_TEST).
    + apply (unless_overrun_free _ (fun _ => true)); [ext_now|].
      split; [reflexivity|]. left. repeat split.
      exists (emit (Println ("HC-12 command mode disabled." ++ nl))
                   (set_serialChar (toupper c) st)).
      split; [ext_now | reflexivity].
    + assert (Hgo : forall s, unless_overrun radio_stretch st s ->
                unless_overrun
                  (fun a b => relay_view b = relay_view a /\ radio_outcome a b)
                  st (radio_loop rx s)).
      { intros s [Ms Cs]. destruct (IH s) as [Mr Cr]. split; [lia|].
        intros H.
        destruct Cs as [Hv Hs]; [lia|]. destruct Cr as [Hv' Ho]; [lia|].
        split; [congruence|].
        destruct Ho as [(Hpc & Hf & st1 & Hext & Ht) | (Hpc & Hrx & Hk)].
        - left. repeat split; try assumption.
          exists st1. split; [|exact Ht].
          eapply extends_trans; [apply Hs | exact Hext].
        - right. repeat split; try assumption.
          + destruct Hs, Hk. congruence.
          + eapply extends_trans; [apply Hs | apply Hk]. }
      destruct (Ascii.eqb (toupper c) LF).
      * destruct (await_reply _) as [r s1] eqn:Hr.
        apply Hgo. apply radio_stretch_free.
        -- change (relay_view (reset_command (show_reply r s1)))
             with (relay_view (show_reply r s1)).
           rewrite show_reply_relay_view.
           change s1 with (snd (r, s1)). rewrite <- Hr, await_reply_relay_view.
           change (relay_view (emit (Println "") ?s)) with (relay_view s).
           rewrite write_string_relay_view. reflexivity.
        -- match type of Hr with
           | await_reply (emit ?p (write_string ?s ?st0)) = _ =>
             apply (radio_keeps_trans _ (show_reply r s1)); [|keeps_now];
             apply (radio_keeps_trans _ s1); [|apply show_reply_keeps];
             apply (radio_keeps_trans _ (emit p (write_string s st0)));
               [|change s1 with (snd (r, s1)); rewrite <- Hr;
                 apply await_reply_keeps];
             apply (radio_keeps_trans _ (write_string s st0)); [|keeps_now];
             apply (radio_keeps_trans _ st0);
               [keeps_now | apply write_string_keeps]
           end.
      * apply Hgo.
        destruct (negb (code (toupper c) =? 255));
          [|apply radio_stretch_free; [reflexivity | keeps_now]].
        match goal with
        | |- unless_overrun _ _ (set_posn _ (store_command ?c' ?s)) =>
          apply (unless_overrun_trans _ _ (store_command c' s));
            [exact radio_stretch_trans | |
             apply radio_stretch_free; [reflexivity | keeps_now]];
          apply (unless_overrun_trans _ _ s);
            [exact radio_stretch_trans
            |apply radio_stretch_free; [reflexivity | keeps_now]
            |apply store_command_in_bounds]
        end.
Qed.

Lemma relay_untouched_free (st st' : State) :
  extends console_event st st' -> relay_view st' = relay_view st ->
  unless_overrun relay_untouched st st'.
Proof. intros He Hv. exact (unless_overrun_free _ _ st st' He Hv). Qed.

Lemma radio_test_in_bounds (st : State) :
  unless_overrun relay_untouched st (radio_test st).
Proof.
  unfold radio_test. destruct (await_reply _) as [r s1] eqn:Hr.
  apply (unless_overrun_trans _ _
           (reset_command (emits radio_instructions s1)));
    [exact relay_untouched_trans | |
     eapply unless_overrun_weaken; [|apply radio_loop_in_bounds];
     intros x y [Hv _]; exact Hv].
  apply relay_untouched_free.
  - apply (extends_trans _ _ s1); [|ext_now].
    change s1 with (snd (r, s1)). rewrite <- Hr.
    eapply extends_trans;
      [|eapply extends_mono;
        [apply radio_console_event | apply await_reply_keeps]].
    ext_now.
  - change (relay_view (reset_command (emits radio_instructions s1)))
      with (relay_view (snd (r, s1))).
    rewrite <- Hr, await_reply_relay_view. reflexivity.
Qed.

Lemma command_loop_in_bounds (names : list string) :
  forall (i : nat) (st : State),
    unless_overrun relay_untouched st (snd (command_loop i names st)).
Proof.
  induction names as [|name names IH]; intros i st.
  - apply relay_untouched_free; [apply extends_refl | reflexivity].
  - cbn [command_loop].
    destruct (String.eqb (cstr (command st)) name); [|apply IH].
    assert (Hsw : unless_overrun relay_untouched st (switch_command i name st))
      by (apply relay_untouched_free;
          [apply switch_command_console | apply switch_command_relay_view]).
    assert (Hled : unless_overrun relay_untouched st
                     (led_test (switch_command i name st))).
    { apply (unless_overrun_trans _ _ (switch_command i name st));
        [exact relay_untouched_trans | exact Hsw |].
      apply relay_untouched_free;
        [apply led_test_console | apply led_test_relay_view]. }
    assert (Hrad : unless_overrun relay_untouched st
                     (radio_test (switch_command i name st)))
      by (apply (unless_overrun_trans _ _ (switch_command i name st));
          [exact relay_untouched_trans | exact Hsw
          | apply radio_test_in_bounds]).
    destruct (pc (switch_command i name st)); try exact Hsw;
      destruct (testRad (switch_command i name st)); cbn [snd];
      try exact Hrad;
      destruct (testLEDr (switch_command i name st)); cbn [snd];
      try exact Hled; exact Hsw.
Qed.

Lemma dispatch_in_bounds (st : State) :
  unless_overrun relay_untouched st (snd (dispatch st)).
Proof.
  unfold dispatch.
  destruct (contains QUERY (cstr (command st)));
    [apply relay_untouched_free; [ext_now | reflexivity]|].
  destruct (contains EXIT_TEST (cstr (command st)));
    [apply relay_untouched_free; [ext_now | reflexivity]|].
  pose proof (command_loop_in_bounds COMMANDS 0 st) as Hloop.
  destruct (command_loop 0 COMMANDS st) as [[which left] st1].
  cbn [snd] in Hloop. destruct left; [exact Hloop|].
  destruct (nonempty (cstr (command st1))
            && match which with None => true | Some _ => false end);
    [|exact Hloop].
  eapply unless_overrun_trans;
    [exact relay_untouched_trans | exact Hloop |].
  apply relay_untouched_free; [ext_now | reflexivity].
Qed.

Lemma checkSerialUSB_in_bounds (st : State) :
  unless_overrun relay_untouched st (checkSerialUSB st).
Proof.
  unfold checkSerialUSB. destruct (usb_rx st) as [|c rest];
    [apply relay_untouched_free; [apply extends_refl | reflexivity]|].
  destruct (Ascii.eqb c LF || Ascii.eqb c CR).
  - destruct (0 <? posn _);
      [|apply relay_untouched_free; [ext_now | reflexivity]].
    pose proof (dispatch_in_bounds (set_serialChar c (set_usb_rx rest st)))
      as Hd.
    destruct (dispatch _) as [left st1]. cbn [snd] in Hd.
    apply (unless_overrun_trans _ _ (set_serialChar c (set_usb_rx rest st)));
      [exact relay_untouched_trans
      |apply relay_untouched_free; [ext_now | reflexivity]|].
    destruct left; [exact Hd|].
    eapply unless_overrun_trans;
      [exact relay_untouched_trans | exact Hd |].
    apply relay_untouched_free; [ext_now | reflexivity].
  - match goal with
    | |- unless_overrun _ _ (set_posn _ (store_command ?c' ?s)) =>
      apply (unless_overrun_trans _ _ (store_command c' s));
        [exact relay_untouched_trans | |
         apply relay_untouched_free; [ext_now | reflexivity]];
      apply (unless_overrun_trans _ _ s);
        [exact relay_untouched_trans
        |apply relay_untouched_free; [ext_now | reflexivity]
        |eapply unless_overrun_weaken; [|apply store_command_in_bounds];
         intros x y [Hv _]; exact Hv]
    end.
Qed.

Lemma console_step_in_bounds (st : State) :
  unless_overrun relay_untouched st (console_step st).
Proof.
  unfold console_step. destruct (pc st).
  - apply checkSerialUSB_in_bounds.
  - eapply unless_overrun_weaken; [|apply radio_loop_in_bounds].
    intros x y [Hv _]; exact Hv.
  - apply relay_untouched_free; [|apply led_loop_relay_view].
    eapply extends_mono; [apply led_console_event | apply led_loop_extends].
  - apply relay_untouched_free; [apply extends_refl | reflexivity].
Qed.

Lemma console_untouched_trans (x y z : State) :
  console_untouched x y -> console_untouched y z -> console_untouched x z.
Proof.
  intros [Hv1 Hs1] [Hv2 Hs2]. split; [congruence | auto].
Qed.

(** The store of the relay: inside [rtcmSentence], or logged. *)
Lemma relay_byte_in_bounds (c : ascii) (st : State) :
  unless_overrun console_untouched st (relay_byte c st).
Proof.
  destruct st as [sc rs fL fR fD fS cmd pn pre bc urx s0rx hc p tr].
  unfold unless_overrun, overruns, console_untouched, console_view, synced,
    idle, relay_byte, store_rtcm, updateLED, emit; simpl.
  destruct (Ascii.eqb c xD3); simpl;
    repeat match goal with
           | |- context [if ?b then _ else _] => destruct b eqn:?; simpl
           end;
    rewrite ?out_of_bounds_app, ?length_app; simpl;
    (split; [lia|]); intros H; try lia;
    (split; [reflexivity|]);
    (intros [(Hp & Hb & Hr) | (Hp & Hb & Hlen)]); subst;
    try discriminate;
    first
      [ left; repeat split; reflexivity
      | right; split; [reflexivity|];
        split; [apply Z.mod_pos_bound; lia|];
        rewrite length_insert; first [exact Hlen | reflexivity] ].
Qed.

Lemma checkRTCMtoRadio_in_bounds (st : State) :
  unless_overrun console_untouched st (checkRTCMtoRadio st).
Proof.
  unfold checkRTCMtoRadio. destruct (serial0_rx st) as [|c q] eqn:Hq.
  - apply (unless_overrun_free _ relay_event); [apply extends_refl|].
    split; [reflexivity | auto].
  - apply (unless_overrun_trans _ _ (set_serial0_rx q st));
      [exact console_untouched_trans | | apply relay_byte_in_bounds].
    apply (unless_overrun_free _ relay_event); [ext_now|].
    split; [reflexivity | auto].
Qed.

(** The two shares of a step. *)
Lemma step_in_bounds (st : State) :
  unless_overrun relay_untouched st (console_step st)
  /\ unless_overrun console_untouched (console_step st) (step st).
Proof.
  split; [apply console_step_in_bounds|].
  unfold step. destruct (pc (console_step st));
    try (apply (unless_overrun_free _ relay_event);
         [apply extends_refl | split; [reflexivity | auto]]).
  apply checkRTCMtoRadio_in_bounds.
Qed.

Lemma keeps_synced_trans (x y z : State) :
  keeps_synced x y -> keeps_synced y z -> keeps_synced x z.
Proof. unfold keeps_synced. auto. Qed.

Lemma turn_in_bounds (st : State) (input : string * list ascii) :
  unless_overrun keeps_synced st (turn st input).
Proof.
  unfold turn.
  set (st0 := arrive0 (snd input) (arriveUSB (fst input) st)).
  destruct (step_in_bounds st0) as [Hc Hr].
  apply (unless_overrun_trans _ _ st0); [exact keeps_synced_trans | |].
  - apply (unless_overrun_free _ relay_event);
      [apply extends_same; reflexivity | intros Hs; exact Hs].
  - apply (unless_overrun_trans _ _ (console_step st0));
      [exact keeps_synced_trans | |].
    + eapply unless_overrun_weaken; [|exact Hc].
      unfold relay_untouched, relay_view, keeps_synced, synced, idle.
      intros x y Hv. injection Hv as -> -> -> _. tauto.
    + eapply unless_overrun_weaken; [|exact Hr].
      intros x y [_ Hs]. exact Hs.
Qed.

Lemma turns_in_bounds (inputs : list (string * list ascii)) :
  forall st, unless_overrun keeps_synced st (fold_left turn inputs st).
Proof.
  induction inputs as [|input inputs IH]; intros st.
  - apply (unless_overrun_free _ relay_event);
      [apply extends_refl | intros Hs; exact Hs].
  - cbn [fold_left].
    apply (unless_overrun_trans _ _ (turn st input));
      [exact keeps_synced_trans | apply turn_in_bounds | apply IH].
Qed.

(** X1.  The console and the relay keep to their own state.  In a step of
    the sketch in which no store goes past the end of an array, whatever
    the console does in its share of the step (a call of [checkSerialUSB],
    a dispatch, a whole test loop) leaves [preamble], [byteCount], the
    sentence buffer and the bytes waiting on Serial0 as they are; and the
    call of [checkRTCMtoRadio] that follows it in [loop()] leaves the four
    flags, the command buffer, [posn], the console input, the replies of
    the HC-12 and the program point as they are. *)
Theorem console_and_relay_apart (st : State) :
  kept_in_bounds st (step st) ->
  relay_view (console_step st) = relay_view st
  /\ console_view (step st) = console_view (console_step st).
Proof.
  intros Hk. apply kept_in_bounds_overruns in Hk.
  destruct (step_in_bounds st) as [[Mc Cc] [Mr Cr]].
  split; [apply Cc; lia | apply Cr; lia].
Qed.

Lemma console_and_relay_apart_witness :
  let st := arrive0 [xD3; NUL] (arriveUSB "t" initial) in
  relay_view (console_step st) = relay_view st
  /\ console_view (step st) = console_view (console_step st).
Proof.
  apply (console_and_relay_apart (arrive0 [xD3; NUL] (arriveUSB "t" initial))).
  split; reflexivity.
Defined.

(** X2.  An invariant of the whole sketch.  Whatever reaches the console and
    Serial0, turn after turn, as long as no store goes past the end of an
    array, the frame synchronizer is found between two steps either with no
    capture open, [byteCount] at zero and the sentence buffer all zero, or
    with one capture open ([preamble] 1, never 2), the buffer still 300
    bytes long. *)
Theorem sketch_keeps_synced (inputs : list (string * list ascii)) (st : State) :
  synced st -> kept_in_bounds st (fold_left turn inputs st) ->
  synced (fold_left turn inputs st).
Proof.
  intros Hs Hk. apply kept_in_bounds_overruns in Hk.
  destruct (turns_in_bounds inputs st) as [_ C]. exact (C Hk Hs).
Qed.

Lemma sketch_keeps_synced_witness :
  synced (fold_left turn
            [("debugRad" ++ nl, [xD3; NUL]); (EmptyString, [xD3])]%string
            initial).
Proof.
  apply (sketch_keeps_synced
           [("debugRad" ++ nl, [xD3; NUL]); (EmptyString, [xD3])]%string
           initial).
  - left. repeat split.
  - split; reflexivity.
Defined.

(** X8.  Leaving the radio test.  Over any console input that the loop
    handles without a store past the end of [command], from any state, the
    [while (true)] of the radio test either returns to [loop()], with
    [testRad] clear and the SET pin set HIGH as the last thing done, or has
    used up the input and waits inside with [testRad] as it was, having
    only printed, written to Serial1, waited and stored into [command];
    either way the relay's state is as it was. *)
Theorem radio_test_leaves (rx : list ascii) (st : State) :
  kept_in_bounds st (radio_loop rx st) ->
  let st' := radio_loop rx st in
  relay_view st' = relay_view st
  /\ ((pc st' = InLoop /\ testRad st' = false
       /\ exists st1, extends radio_event st st1
                      /\ trace st' = trace st1 ++ [SetPin true])
      \/ (pc st' = InRadioTest /\ usb_rx st' = [] /\ radio_keeps st st')).
Proof.
  intros Hk. apply kept_in_bounds_overruns in Hk.
  destruct (radio_loop_in_bounds rx st) as [_ C]. exact (C Hk).
Qed.

Lemma radio_test_leaves_witness :
  let rx := list_ascii_of_string ("at" ++ nl ++ "!" ++ nl) in
  let st := set_testRad true initial in
  let st' := radio_loop rx st in
  relay_view st' = relay_view st
  /\ ((pc st' = InLoop /\ testRad st' = false
       /\ exists st1, extends radio_event st st1
                      /\ trace st' = trace st1 ++ [SetPin true])
      \/ (pc st' = InRadioTest /\ usb_rx st' = [] /\ radio_keeps st st')).
Proof.
  apply (radio_test_leaves (list_ascii_of_string ("at" ++ nl ++ "!" ++ nl))
           (set_testRad true initial)).
  split; reflexivity.
Defined.

(** ** More of the console's commands *)

(** X11.  The list of commands.  With the console at rest, a line of one to
    ten characters that holds [?], whatever else it holds ([!] or a command
    among it), is answered with the list of commands and nothing else: the
    four flags stay as they are and the console is at rest again. *)
Theorem query_lists_commands (st : State) (line : string) :
  at_rest st -> fits line = true -> contains QUERY line = true ->
  let st' := enter line st in
  trace st' = trace st ++ command_listing
  /\ testLEDr st' = testLEDr st /\ testRad st' = testRad st
  /\ debugRad st' = debugRad st /\ reset st' = reset st
  /\ at_rest st'.
Proof.
  intros Hrest Hfits Hquery st'.
  destruct (enter_dispatch line st Hfits Hrest)
    as (s1 & Henter & Hline & Hrx & Hpc & Htrace & HL & HR & HD & HS & _).
  unfold st'. rewrite Henter. unfold dispatch. rewrite Hline, Hquery.
  cbv beta iota. repeat split; try assumption.
  simpl. rewrite Htrace. reflexivity.
Qed.

Lemma query_lists_commands_witness :
  let st := set_debugRad true initial in
  let st' := enter "reset?" st in
  trace st' = command_listing /\ debugRad st' = true /\ reset st' = false
  /\ at_rest st'.
Proof.
  destruct (query_lists_commands (set_debugRad true initial) "reset?")
    as (Ht & _ & _ & HD & HS & Hrest);
    [repeat split | reflexivity | reflexivity |].
  split; [exact Ht|]. split; [exact HD|]. split; [exact HS | exact Hrest].
Defined.

(** One dispatch of [debugRad] with no test flag set: the flag is flipped,
    its new value reported, and the console is at rest again. *)
Lemma debugRad_dispatch (st : State) :
  at_rest st -> testLEDr st = false -> testRad st = false ->
  let st1 := enter "debugRad" st in
  debugRad st1 = negb (debugRad st)
  /\ trace st1 = trace st ++ [report "debugRad" (negb (debugRad st))]
  /\ testLEDr st1 = false /\ testRad st1 = false /\ reset st1 = reset st
  /\ at_rest st1.
Proof.
  intros Hrest Hled Hrad st1.
  destruct (enter_dispatch "debugRad" st eq_refl Hrest)
    as (s1 & Henter & Hline & Hrx & Hpc & Htrace & HL & HR & HD & HS & _).
  unfold st1. rewrite Henter. clear st1 Henter.
  rewrite <- HD, <- Htrace, <- HS. rewrite <- HL in Hled. rewrite <- HR in Hrad.
  clear HL HR HD HS Htrace Hrest.
  destruct s1 as [sc rs fL fR fD fS cmd pn pre bc urx s0rx hc p tr].
  simpl in Hline, Hrx, Hpc, Hrad, Hled. subst urx p fR fL.
  unfold dispatch, command_loop, COMMANDS. cbn [command]. rewrite Hline.
  change (contains QUERY "debugRad") with false.
  change (contains EXIT_TEST "debugRad") with false.
  change (String.eqb "debugRad" "testLEDr") with false.
  change (String.eqb "debugRad" "testRad") with false.
  change (String.eqb "debugRad" "debugRad") with true. cbv beta iota.
  simpl; rewrite ?Hline; simpl. repeat split.
Qed.

(** X12.  The toggle that is one.  With the console at rest and no test
    flag set, entering [debugRad] twice in succession reports both
    transitions, leaves [debugRad] as it was, and leaves the console at
    rest; the other flags are not touched. *)
Theorem debugRad_twice (st : State) :
  at_rest st -> testLEDr st = false -> testRad st = false ->
  let st2 := enter "debugRad" (enter "debugRad" st) in
  debugRad st2 = debugRad st
  /\ trace st2
     = trace st ++ [report "debugRad" (negb (debugRad st));
                    report "debugRad" (debugRad st)]
  /\ testLEDr st2 = false /\ testRad st2 = false /\ reset st2 = reset st
  /\ at_rest st2.
Proof.
  intros Hrest Hled Hrad st2.
  destruct (debugRad_dispatch st Hrest Hled Hrad)
    as (HD1 & Ht1 & HL1 & HR1 & HS1 & Hrest1).
  destruct (debugRad_dispatch _ Hrest1 HL1 HR1)
    as (HD2 & Ht2 & HL2 & HR2 & HS2 & Hrest2).
  fold st2 in HD2, Ht2, HL2, HR2, HS2, Hrest2.
  repeat split; try assumption; try apply Hrest2.
  - rewrite HD2, HD1. apply negb_involutive.
  - rewrite Ht2, Ht1, HD1, negb_involutive, <- app_assoc. reflexivity.
  - congruence.
Qed.

Lemma debugRad_twice_witness :
  let st2 := enter "debugRad" (enter "debugRad" initial) in
  debugRad st2 = false
  /\ trace st2 = [report "debugRad" true; report "debugRad" false].
Proof.
  destruct (debugRad_twice initial) as (HD & Ht & _);
    [repeat split | reflexivity | reflexivity |].
  split; [exact HD | exact Ht].
Defined.

(** X13.  The reset command.  With the console at rest, whatever the flags
    (also with [testRad] or [testLEDr] set), entering [reset] flips the
    [reset] flag, reports it, prints [Restarting ...] and calls
    [esp_restart()], and that is all the call does: no test loop is
    entered and nothing more is printed.  What the chip does once it has
    restarted is not part of the model. *)
Theorem reset_restarts (st : State) :
  at_rest st ->
  let st1 := enter "reset" st in
  trace st1
  = trace st ++ [report "reset" (negb (reset st));
                 Println "Restarting ..."; Restart]
  /\ reset st1 = negb (reset st)
  /\ pc st1 = Restarted.
Proof.
  intros Hrest st1.
  destruct (enter_dispatch "reset" st eq_refl Hrest)
    as (s1 & Henter & Hline & Hrx & Hpc & Htrace & _ & _ & _ & HS & _).
  unfold st1. rewrite Henter. rewrite <- Htrace, <- HS.
  destruct s1 as [sc rs fL fR fD fS cmd pn pre bc urx s0rx hc p tr].
  simpl in Hline, Hrx, Hpc. subst urx p.
  unfold dispatch, command_loop, COMMANDS. cbn [command]. rewrite Hline.
  change (contains QUERY "reset") with false.
  change (contains EXIT_TEST "reset") with false.
  change (String.eqb "reset" "testLEDr") with false.
  change (String.eqb "reset" "testRad") with false.
  change (String.eqb "reset" "debugRad") with false.
  change (String.eqb "reset" "reset") with true. cbv beta iota.
  simpl. rewrite <- !app_assoc. repeat split; reflexivity.
Qed.

Lemma reset_restarts_witness :
  let st1 := enter "reset" (set_testRad true initial) in
  trace st1 = [report "reset" true; Println "Restarting ..."; Restart]
  /\ pc st1 = Restarted.
Proof.
  destruct (reset_restarts (set_testRad true initial)) as (Ht1 & _ & Hpc);
    [repeat split|].
  split; [exact Ht1 | exact Hpc].
Defined.

(** X14.  The LED test is left without the buffer being cleared.  With the
    console at rest and no test flag set, entering [testLEDr] and leaving
    the LED test with [!] brings control back to [loop()] with the flag
    clear, but the [return] has skipped the reset of the command buffer: it
    still holds [testLEDr], with [posn] at 8.  So the next line end, with
    nothing typed before it, dispatches [testLEDr] once more: the flag is
    set, reported, and control is inside the LED test again. *)
Theorem led_exit_keeps_command (st : State) :
  at_rest st -> testLEDr st = false -> testRad st = false ->
  let st2 := enter "!" (enter "testLEDr" st) in
  let st3 := enter "" st2 in
  pc st2 = InLoop /\ testLEDr st2 = false
  /\ posn st2 = 8 /\ cstr (command st2) = "testLEDr"%string
  /\ testLEDr st3 = true /\ pc st3 = InLedTest
  /\ trace st3 = trace st2 ++ [report "testLEDr" true; led_instructions].
Proof.
  intros (Hpc & Hposn & Hcmd & Hrx) Hled Hrad.
  destruct st as [sc rs fL fR fD fS cmd pn pre bc urx s0rx hc p tr].
  simpl in Hpc, Hposn, Hcmd, Hrx, Hled, Hrad. subst.
  repeat split; try (vm_compute; reflexivity).
  vm_compute. exact (eq_sym (app_assoc _ [_] [_])).
Qed.

Lemma led_exit_keeps_command_witness :
  let st2 := enter "!" (enter "testLEDr" initial) in
  posn st2 = 8 /\ testLEDr (enter "" st2) = true.
Proof.
  destruct (led_exit_keeps_command initial)
    as (_ & _ & Hposn & _ & Hflag & _);
    [repeat split | reflexivity | reflexivity |].
  split; [exact Hposn | exact Hflag].
Defined.

(** X15.  Typing within the buffer.  With the console at rest, typing up to
    eleven characters, none of them NUL or a line end, stores them into
    [command] from its start, one call of [checkSerialUSB] each, with
    nothing else done (no echo, no store past the end) and the flags as
    they are; with ten or fewer, the buffer holds the line as a C string. *)
Theorem typing_in_bounds (st : State) (line : string) :
  at_rest st -> visible line = true ->
  (String.length line <= Z.to_nat COMMAND_SIZE)%nat ->
  let st' := Nat.iter (String.length line) console_step (arriveUSB line st) in
  command st' = holds (list_ascii_of_string line)
  /\ posn st' = Z.of_nat (String.length line)
  /\ trace st' = trace st /\ usb_rx st' = [] /\ pc st' = InLoop
  /\ (testLEDr st', testRad st', debugRad st', reset st')
     = (testLEDr st, testRad st, debugRad st, reset st)
  /\ ((String.length line < Z.to_nat COMMAND_SIZE)%nat ->
      cstr (command st') = line).
Proof.
  intros (Hpc & Hposn & Hcmd & Hrx) Hvis Hlen st'.
  destruct (type_line line [] [] (arriveUSB line st)) as [c Hc]; auto.
  - unfold arriveUSB; simpl. rewrite Hrx, app_nil_r. reflexivity.
  - fold st' in Hc. rewrite Hc.
    cbn [command posn trace usb_rx pc testLEDr testRad debugRad reset
         typed_into set_posn set_command set_serialChar set_usb_rx
         arriveUSB app].
    rewrite length_list_ascii_of_string. repeat split; try assumption.
    intros Hlt. unfold holds. rewrite length_list_ascii_of_string.
    destruct (Z.to_nat COMMAND_SIZE - String.length line)%nat as [|k] eqn:Hk;
      [lia|].
    simpl replicate. apply cstr_terminated, Hvis.
Qed.

Lemma typing_in_bounds_witness :
  let st' := Nat.iter 11 console_step (arriveUSB "aaaaaaaaaaa" initial) in
  command st' = list_ascii_of_string "aaaaaaaaaaa" /\ trace st' = [].
Proof.
  destruct (typing_in_bounds initial "aaaaaaaaaaa")
    as (Hcmd & _ & Ht & _); [repeat split | reflexivity | |].
  - unfold COMMAND_SIZE. simpl. lia.
  - split; [exact Hcmd | exact Ht].
Defined.

(** * The relay of the build of 2025-12-13 *)

Lemma b1213_relay_byte_rx (c : ascii) (q : list ascii) (st : Build1213.State) :
  Build1213.with_rx [] (Build1213.relay_byte c (Build1213.with_rx q st))
  = Build1213.relay_byte c (Build1213.with_rx [] st).
Proof.
  unfold Build1213.relay_byte, Build1213.with_rx; simpl.
  repeat match goal with
         | |- context [if ?b then _ else _] => destruct b; simpl
         end; reflexivity.
Qed.

Lemma b1213_relay_byte_waiting (c : ascii) (st : Build1213.State) :
  Build1213.serial1_rx (Build1213.relay_byte c st) = Build1213.serial1_rx st.
Proof.
  unfold Build1213.relay_byte; simpl.
  repeat match goal with
         | |- context [if ?b then _ else _] => destruct b; simpl
         end; reflexivity.
Qed.

(** Calling the relay once for each byte that waits is folding
    [relay_byte] over those bytes. *)
Lemma b1213_iter_fold (q : list ascii) :
  forall st, Build1213.serial1_rx st = q ->
    Nat.iter (length q) Build1213.checkRTCMtoRadio st
    = fold_left (fun s c => Build1213.relay_byte c s) q
        (Build1213.with_rx [] st).
Proof.
  induction q as [|c q IH]; intros st Hq.
  - simpl. destruct st; simpl in Hq; subst. reflexivity.
  - simpl length. rewrite Nat.iter_succ_r.
    unfold Build1213.checkRTCMtoRadio at 2. rewrite Hq.
    rewrite IH by (rewrite b1213_relay_byte_waiting; reflexivity).
    cbn [fold_left]. rewrite b1213_relay_byte_rx.
    replace (Build1213.with_rx [] st)
      with (Build1213.with_rx [] (Build1213.with_rx [] st)) at 2
      by reflexivity.
    reflexivity.
Qed.

Lemma b1213_pulses_app (s t : list Build1213.Event) :
  Build1213.pulses (s ++ t) = (Build1213.pulses s + Build1213.pulses t)%nat.
Proof.
  induction s as [|e s IH]; [reflexivity|].
  destruct e; simpl; rewrite IH; reflexivity.
Qed.

Lemma b1213_sent2_app (s t : list Build1213.Event) :
  Build1213.sent2 (s ++ t) = Build1213.sent2 s ++ Build1213.sent2 t.
Proof.
  induction s as [|e s IH]; [reflexivity|].
  destruct e; simpl; rewrite IH; reflexivity.
Qed.

Lemma b1213_relay_byte_observe (c : ascii) (st : Build1213.State) :
  (Build1213.preambleCount (Build1213.relay_byte c st),
   Build1213.pulses (Build1213.trace (Build1213.relay_byte c st)))
  = Build1213.observe
      (Build1213.preambleCount st, Build1213.pulses (Build1213.trace st)) c.
Proof.
  unfold Build1213.relay_byte, Build1213.observe.
  destruct ((Build1213.preambleCount st =? 0) && Ascii.eqb c xD3);
    [|destruct ((Build1213.preambleCount st =? 1) && (code c <? 3))];
    cbv beta iota zeta;
    match goal with
    | |- context [?p =? 2] => destruct (p =? 2)
    end;
    destruct (Build1213.debugRad st); simpl;
    rewrite ?b1213_pulses_app; simpl; rewrite ?Nat.add_0_r;
    try reflexivity; f_equal; lia.
Qed.

Lemma b1213_relay_byte_sent2 (c : ascii) (st : Build1213.State) :
  Build1213.sent2 (Build1213.trace (Build1213.relay_byte c st))
  = Build1213.sent2 (Build1213.trace st) ++ [c].
Proof.
  unfold Build1213.relay_byte.
  destruct ((Build1213.preambleCount st =? 0) && Ascii.eqb c xD3);
    [|destruct ((Build1213.preambleCount st =? 1) && (code c <? 3))];
    cbv beta iota zeta;
    match goal with
    | |- context [?p =? 2] => destruct (p =? 2)
    end;
    destruct (Build1213.debugRad st); simpl;
    rewrite ?b1213_sent2_app; simpl; rewrite ?app_nil_r; reflexivity.
Qed.

Lemma b1213_run_fold (bytes : list ascii) (st : Build1213.State) :
  Build1213.run bytes st
  = fold_left (fun s c => Build1213.relay_byte c s)
      (Build1213.serial1_rx st ++ bytes) (Build1213.with_rx [] st).
Proof.
  unfold Build1213.run. rewrite b1213_iter_fold by reflexivity. reflexivity.
Qed.

Lemma b1213_fold_observe (q : list ascii) :
  forall st,
    let st' := fold_left (fun s c => Build1213.relay_byte c s) q st in
    (Build1213.preambleCount st', Build1213.pulses (Build1213.trace st'))
    = fold_left Build1213.observe q
        (Build1213.preambleCount st, Build1213.pulses (Build1213.trace st)).
Proof.
  induction q as [|c q IH]; intros st; [reflexivity|].
  cbn [fold_left] in *. cbn zeta. rewrite <- b1213_relay_byte_observe.
  apply IH.
Qed.

Lemma b1213_fold_sent2 (q : list ascii) :
  forall st,
    Build1213.sent2
      (Build1213.trace (fold_left (fun s c => Build1213.relay_byte c s) q st))
    = Build1213.sent2 (Build1213.trace st) ++ q.
Proof.
  induction q as [|c q IH]; intros st; cbn [fold_left].
  - rewrite app_nil_r. reflexivity.
  - rewrite IH, b1213_relay_byte_sent2, <- app_assoc. reflexivity.
Qed.

Lemma b1213_observe_plain (body : list ascii) (k : nat) :
  plain body -> fold_left Build1213.observe body (0, k) = (0, k).
Proof.
  intros Hbody; induction Hbody as [|c body Hc _ IH]; [reflexivity|].
  cbn [fold_left]. replace (Build1213.observe (0, k) c) with (0, k);
    [exact IH|].
  unfold Build1213.observe. apply Ascii.eqb_neq in Hc. rewrite Hc.
  reflexivity.
Qed.

Lemma b1213_observe_sentence (second : ascii) (body : list ascii) (k : nat) :
  plain body ->
  fold_left Build1213.observe (Build1213.sentence second body) (0, k)
  = (0, if code second <? 3 then S k else k).
Proof.
  intros Hbody. unfold Build1213.sentence. cbn [fold_left].
  change (Build1213.observe (0, k) xD3) with (1, k).
  replace (Build1213.observe (1, k) second)
    with (0, if code second <? 3 then S k else k);
    [apply b1213_observe_plain, Hbody|].
  unfold Build1213.observe. simpl.
  destruct (code second <? 3); reflexivity.
Qed.

(** How many of the sentences have a second byte below 3. *)
Lemma b1213_observe_stream (parts : list (ascii * list ascii)) :
  forall k,
    Forall (fun part => plain (snd part)) parts ->
    fold_left Build1213.observe (Build1213.stream parts) (0, k)
    = (0, (k + length (List.filter (fun part => (code (fst part) <? 3)%Z) parts))%nat).
Proof.
  induction parts as [|[second body] parts IH]; intros k Hall.
  - simpl. rewrite Nat.add_0_r. reflexivity.
  - inversion Hall as [|? ? Hbody Hrest]; subst. simpl in Hbody.
    change (Build1213.stream ((second, body) :: parts))
      with (Build1213.sentence second body ++ Build1213.stream parts).
    rewrite fold_left_app, b1213_observe_sentence by exact Hbody.
    rewrite IH by exact Hrest. cbn [List.filter fst].
    destruct (code second <? 3); simpl length; f_equal; lia.
Qed.

(** X16.  The byte-count heuristic counts the sentences it is made for.
    In the build of 2025-12-13, from [preambleCount = 0] and with nothing
    waiting, a stream of sentences, each a preamble, a second byte and
    bytes that are no preamble, is written to serial2 byte for byte, and the
    LED task is resumed once for each sentence whose second byte is below
    3, and for no other; [preambleCount] is 0 again at the end. *)
Theorem heuristic_counts_sentences (st : Build1213.State)
    (parts : list (ascii * list ascii)) :
  Build1213.preambleCount st = 0 -> Build1213.serial1_rx st = [] ->
  Forall (fun part => plain (snd part)) parts ->
  let st' := Build1213.run (Build1213.stream parts) st in
  Build1213.pulses (Build1213.trace st')
  = (Build1213.pulses (Build1213.trace st)
     + length (List.filter (fun part => (code (fst part) <? 3)%Z) parts))%nat
  /\ Build1213.preambleCount st' = 0
  /\ Build1213.sent2 (Build1213.trace st')
     = Build1213.sent2 (Build1213.trace st) ++ Build1213.stream parts.
Proof.
  intros Hp Hrx Hall st'. unfold st'. rewrite b1213_run_fold, Hrx.
  cbn [app].
  pose proof (b1213_fold_observe (Build1213.stream parts)
                (Build1213.with_rx [] st)) as Hobs.
  cbn zeta in Hobs. cbn [Build1213.with_rx Build1213.preambleCount
                         Build1213.trace] in Hobs.
  rewrite Hp, b1213_observe_stream in Hobs by exact Hall.
  injection Hobs as Hp' Hk. split; [exact Hk|]. split; [exact Hp'|].
  rewrite b1213_fold_sent2. reflexivity.
Qed.

Lemma heuristic_counts_sentences_witness :
  let st := Build1213.mkState NUL false 0 0 0 [] [] in
  let parts := [(NUL, ["019"; ">"]); ("003", ["A"]); ("002", [])]%char in
  Build1213.pulses (Build1213.trace (Build1213.run (Build1213.stream parts) st))
  = 2%nat.
Proof.
  destruct (heuristic_counts_sentences
              (Build1213.mkState NUL false 0 0 0 [] [])
              [(NUL, ["019"; ">"]); ("003", ["A"]); ("002", [])]%char)
    as (Hk & _); [reflexivity | reflexivity | |exact Hk].
  repeat constructor; discriminate.
Defined.

(** X17.  The relay of that build loses nothing either: from any state, for
    any bytes reaching serial1 behind those that wait, once each has been
    read, serial2 has been written the same bytes in the same order. *)
Theorem heuristic_relay_fidelity (st : Build1213.State) (bytes : list ascii) :
  let st' := Build1213.run bytes st in
  Build1213.sent2 (Build1213.trace st')
  = Build1213.sent2 (Build1213.trace st) ++ Build1213.serial1_rx st ++ bytes
  /\ Build1213.serial1_rx st' = [].
Proof.
  cbn zeta. rewrite b1213_run_fold. split.
  - rewrite b1213_fold_sent2. reflexivity.
  - generalize (Build1213.serial1_rx st ++ bytes) as q.
    assert (H : forall q s, Build1213.serial1_rx s = [] ->
                Build1213.serial1_rx
                  (fold_left (fun s c => Build1213.relay_byte c s) q s) = []).
    { induction q as [|c q IH]; intros s Hs; [exact Hs|].
      cbn [fold_left]. apply IH. rewrite b1213_relay_byte_waiting. exact Hs. }
    intros q. apply H. reflexivity.
Qed.

(** * A line typed in the radio test *)

Lemma write_string_emits (s : string) :
  forall st,
    write_string s st = emits (map Tx1 (list_ascii_of_string s)) st.
Proof.
  induction s as [|c s IH]; intros st; simpl.
  - unfold emits. rewrite app_nil_r. destruct st; reflexivity.
  - rewrite IH. unfold emit. unfold emits; simpl.
    rewrite <- app_assoc. reflexivity.
Qed.

Lemma show_reply_shown (r : list ascii) :
  forall st, 0 < posn st ->
    exists c, show_reply r st = set_serialChar c (emits (shown r) st).
Proof.
  induction r as [|c r IH]; intros st Hposn.
  - exists (serialChar st). unfold emits, shown; simpl.
    rewrite app_nil_r. destruct st; reflexivity.
  - cbn [show_reply].
    assert (Hpos : (0 <? posn (set_serialChar c st)) = true)
      by (apply Z.ltb_lt; exact Hposn).
    rewrite Hpos, andb_true_r.
    destruct (negb (code c =? 255)) eqn:Hc.
    + destruct (IH (emit (Print (String c EmptyString))
                         (set_serialChar c st)) Hposn) as [d Hd].
      exists d. rewrite Hd. unfold shown. cbn [List.filter]. rewrite Hc.
      cbn [map]. unfold emits, emit; simpl. rewrite <- app_assoc.
      reflexivity.
    + destruct (IH (set_serialChar c st) Hposn) as [d Hd].
      exists d. rewrite Hd. unfold shown. cbn [List.filter]. rewrite Hc.
      reflexivity.
Qed.

Lemma show_reply_hidden (r : list ascii) :
  forall st, posn st = 0 -> exists c, show_reply r st = set_serialChar c st.
Proof.
  induction r as [|c r IH]; intros st Hposn.
  - exists (serialChar st). destruct st; reflexivity.
  - cbn [show_reply].
    assert (Hpos : (0 <? posn (set_serialChar c st)) = false)
      by (apply Z.ltb_ge; simpl; lia).
    rewrite Hpos, andb_false_r.
    destruct (IH (set_serialChar c st) Hposn) as [d Hd].
    exists d. rewrite Hd. destruct st; reflexivity.
Qed.

Lemma plain_text_cons (c : ascii) (line : string) :
  plain_text (String c line) = true ->
  toupper c <> EXIT_TEST /\ toupper c <> LF /\ toupper c <> NUL
  /\ (code (toupper c) =? 255) = false /\ plain_text line = true.
Proof.
  simpl. rewrite !andb_true_iff, !negb_true_iff, !Ascii.eqb_neq. tauto.
Qed.

Lemma cstr_upper (line : string) (after : list ascii) :
  plain_text line = true ->
  cstr (list_ascii_of_string (upper line) ++ NUL :: after) = upper line.
Proof.
  induction line as [|a line IH]; intros Hplain; [reflexivity|].
  apply plain_text_cons in Hplain. destruct Hplain as (_ & _ & Hnul & _ & Hrest).
  simpl. apply Ascii.eqb_neq in Hnul. rewrite Hnul, IH by exact Hrest.
  reflexivity.
Qed.

Lemma upper_length (line : string) :
  String.length (upper line) = String.length line.
Proof. induction line; simpl; congruence. Qed.

(** In the radio test a character that is taken as text is echoed, stored
    at [posn] in upper case, and [posn] moves on. *)
Lemma radio_loop_char (c0 : ascii) (q typed : list ascii) (st : State) :
  toupper c0 <> EXIT_TEST -> toupper c0 <> LF ->
  (code (toupper c0) =? 255) = false ->
  command st = holds typed -> posn st = Z.of_nat (length typed) ->
  (length typed < Z.to_nat COMMAND_SIZE)%nat ->
  radio_loop (c0 :: q) st
  = radio_loop q
      (typed_into (typed ++ [toupper c0]) (toupper c0) (usb_rx st)
         (emits [Print (String (toupper c0) EmptyString)] st)).
Proof.
  intros Hexit Hlf Hff Hcmd Hposn Hlen. cbn [radio_loop].
  apply Ascii.eqb_neq in Hexit, Hlf. rewrite Hexit, Hlf, Hff. cbn [negb].
  f_equal. unfold store_command, typed_into, emit, emits; simpl.
  rewrite Hposn, Hcmd.
  assert (Hin : (Z.of_nat (length typed) <? COMMAND_SIZE) = true)
    by (apply Z.ltb_lt; lia).
  rewrite Hin, Nat2Z.id, holds_store by exact Hlen. clear Hin.
  destruct st; unfold set_posn, set_command, set_serialChar, set_usb_rx,
    set_trace; simpl.
  f_equal. rewrite length_app; simpl length.
  unfold size_t, COMMAND_SIZE in *. rewrite Z.mod_small; lia.
Qed.

Lemma typed_into_emits_again (typed typed' : list ascii) (c c' : ascii)
    (es es' : list Event) (st : State) :
  typed_into typed' c' (usb_rx (typed_into typed c (usb_rx st) (emits es st)))
    (emits es' (typed_into typed c (usb_rx st) (emits es st)))
  = typed_into typed' c' (usb_rx st) (emits (es ++ es') st).
Proof.
  destruct st; unfold typed_into, emits; simpl. rewrite <- app_assoc.
  reflexivity.
Qed.

Lemma radio_type_line (line : string) :
  forall (typed rest : list ascii) (st : State),
    plain_text line = true ->
    command st = holds typed -> posn st = Z.of_nat (length typed) ->
    (length typed + String.length line <= Z.to_nat COMMAND_SIZE)%nat ->
    exists c,
      radio_loop (list_ascii_of_string line ++ rest) st
      = radio_loop rest
          (typed_into (typed ++ list_ascii_of_string (upper line)) c
             (usb_rx st) (emits (echoed (upper line)) st)).
Proof.
  induction line as [|a line IH]; intros typed rest st Hplain Hcmd Hposn Hlen.
  - exists (serialChar st). simpl. f_equal. rewrite app_nil_r.
    unfold typed_into, emits, echoed; simpl. rewrite app_nil_r.
    rewrite <- Hcmd, <- Hposn. destruct st; reflexivity.
  - apply plain_text_cons in Hplain.
    destruct Hplain as (Hexit & Hlf & _ & Hff & Hplain).
    simpl String.length in Hlen. simpl app.
    rewrite (radio_loop_char a _ typed st) by (auto; lia).
    destruct (IH (typed ++ [toupper a]) rest
                 (typed_into (typed ++ [toupper a]) (toupper a) (usb_rx st)
                    (emits [Print (String (toupper a) EmptyString)] st)))
      as [c Hc]; try reflexivity; auto.
    { rewrite length_app; simpl length. lia. }
    exists c. rewrite Hc, typed_into_emits_again, <- app_assoc. reflexivity.
Qed.

(** X18.  A line typed in the radio test.  Inside the radio test, with the
    command buffer clear, a line of up to ten characters (none of them, in
    upper case, [!], a line feed, NUL or 0xFF) and its line feed go like
    this: each character is echoed in upper case as it is typed; at the
    line feed the line is written to Serial1 in upper case, an empty line is
    printed, the sketch waits 200 ms, and what the HC-12 has sent by then is
    shown character by character, those of 0xFF left out, and not at all
    when the line was empty; then the buffer is clear again and the loop
    goes on with the rest of the input. *)
Theorem radio_test_forwards (st : State) (line : string) (rest : list ascii) :
  command st = zeroed COMMAND_SIZE -> posn st = 0 -> sendable line = true ->
  exists st1,
    radio_loop (list_ascii_of_string line ++ LF :: rest) st
    = radio_loop rest st1
    /\ trace st1
       = trace st ++ echoed (upper line)
         ++ map Tx1 (list_ascii_of_string (upper line))
         ++ [Println ""; Delay 200]
         ++ (if nonempty line then shown (hd [] (hc12_replies st)) else [])
    /\ command st1 = zeroed COMMAND_SIZE /\ posn st1 = 0
    /\ hc12_replies st1 = tl (hc12_replies st).
Proof.
  intros Hcmd Hposn Hsend.
  unfold sendable in Hsend. apply andb_true_iff in Hsend.
  destruct Hsend as [Hplain Hlen]. apply Z.ltb_lt in Hlen.
  destruct (radio_type_line line [] (LF :: rest) st Hplain Hcmd)
    as [c Hc]; [exact Hposn | unfold COMMAND_SIZE in *; simpl; lia|].
  rewrite Hc. clear Hc. cbn [app].
  set (S := typed_into (list_ascii_of_string (upper line)) c (usb_rx st)
              (emits (echoed (upper line)) st)).
  assert (Hstr : cstr (command (set_serialChar LF S)) = upper line).
  { change (cstr (holds (list_ascii_of_string (upper line))) = upper line).
    unfold holds. rewrite length_list_ascii_of_string, upper_length.
    destruct (Z.to_nat COMMAND_SIZE - String.length line)%nat as [|k] eqn:Hk;
      [unfold COMMAND_SIZE in *; lia|].
    simpl replicate. apply cstr_upper, Hplain. }
  cbn [radio_loop]. change (toupper LF) with LF.
  change (Ascii.eqb LF EXIT_TEST) with false.
  change (Ascii.eqb LF LF) with true. cbv iota.
  rewrite Hstr, write_string_emits.
  unfold await_reply.
  set (S1 := emit (Delay 200)
               (emit (Println "")
                  (emits (map Tx1 (list_ascii_of_string (upper line)))
                     (set_serialChar LF S)))).
  assert (Hreplies : hc12_replies S1 = hc12_replies st) by reflexivity.
  assert (Hposn1 : posn S1
                   = Z.of_nat (String.length line)).
  { change (Z.of_nat (length (list_ascii_of_string (upper line)))
            = Z.of_nat (String.length line)).
    rewrite length_list_ascii_of_string, upper_length. reflexivity. }
  assert (Htrace1 : trace S1
                    = trace st ++ echoed (upper line)
                      ++ map Tx1 (list_ascii_of_string (upper line))
                      ++ [Println ""; Delay 200]).
  { unfold S1, S, typed_into, emit, emits; simpl.
    rewrite <- !app_assoc. reflexivity. }
  rewrite Hreplies.
  destruct (hc12_replies st) as [|r later] eqn:Hhc; cbn [hd tl].
  - exists (reset_command S1). split; [reflexivity|].
    split; [|repeat split; rewrite <- Hhc; reflexivity || reflexivity].
    cbn [trace reset_command set_posn set_command]. rewrite Htrace1.
    destruct line; simpl; rewrite ?app_nil_r; reflexivity.
  - destruct line as [|a line].
    + destruct (show_reply_hidden r (set_hc12_replies later S1)) as [d Hd];
        [exact Hposn1|].
      exists (reset_command (set_serialChar d (set_hc12_replies later S1))).
      rewrite Hd. split; [reflexivity|]. split; [|repeat split].
      cbn [trace reset_command set_posn set_command set_serialChar
           set_hc12_replies nonempty].
      rewrite Htrace1. simpl. rewrite ?app_nil_r. reflexivity.
    + destruct (show_reply_shown r (set_hc12_replies later S1)) as [d Hd].
      { change (0 < posn S1). rewrite Hposn1. simpl String.length. lia. }
      exists (reset_command
                (set_serialChar d (emits (shown r)
                                     (set_hc12_replies later S1)))).
      rewrite Hd. split; [reflexivity|]. split; [|repeat split].
      cbn [trace reset_command set_posn set_command set_serialChar emits
           set_trace set_hc12_replies nonempty].
      rewrite Htrace1, <- !app_assoc. reflexivity.
Qed.

Lemma radio_test_forwards_witness :
  exists st1,
    radio_loop (list_ascii_of_string "at+v" ++ [LF])
      (set_hc12_replies [list_ascii_of_string "OK"] initial)
    = radio_loop [] st1
    /\ sent1 (trace st1) = list_ascii_of_string "AT+V".
Proof.
  destruct (radio_test_forwards
              (set_hc12_replies [list_ascii_of_string "OK"] initial)
              "at+v" [])
    as (st1 & Hrun & Ht & _); [reflexivity | reflexivity | reflexivity |].
  exists st1. split; [exact Hrun|]. rewrite Ht. reflexivity.
Defined.

(** * Into the radio test and out again *)

(** X19.  The radio test, entered and left.  With the console at rest and
    [testRad] clear, entering [testRad] sets and reports the flag, pulls the
    SET pin low, sends the HC-12 a line feed, waits 200 ms, drops what the
    HC-12 has sent by then, prints the instructions and waits inside the
    test; leaving it with [!] prints the farewell, sets the pin HIGH and
    clears the flag, and, unlike the LED test, leaves the console at rest,
    the command buffer clear. *)
Theorem radio_test_round_trip (st : State) :
  at_rest st -> testRad st = false ->
  let st1 := enter "testRad" st in
  let st2 := enter "!" st1 in
  pc st1 = InRadioTest /\ testRad st1 = true
  /\ trace st1
     = trace st ++ [report "testRad" true; SetPin false; Tx1 LF; Delay 200]
       ++ radio_instructions
  /\ hc12_replies st1 = tl (hc12_replies st)
  /\ trace st2
     = trace st1 ++ [Println ("HC-12 command mode disabled." ++ nl);
                     SetPin true]
  /\ testRad st2 = false /\ at_rest st2.
Proof.
  intros (Hpc & Hposn & Hcmd & Hrx) Hrad.
  destruct st as [sc rs fL fR fD fS cmd pn pre bc urx s0rx hc p tr].
  simpl in Hpc, Hposn, Hcmd, Hrx, Hrad. subst.
  destruct hc as [|r later];
    (repeat split; try (vm_compute; reflexivity));
    (induction tr as [|x tr IH];
     [vm_compute; reflexivity
     |vm_compute in IH; vm_compute; f_equal; exact IH]).
Qed.

Lemma radio_test_round_trip_witness :
  let st2 := enter "!" (enter "testRad" initial) in
  testRad st2 = false /\ at_rest st2 /\ pin_level st2 = true.
Proof.
  destruct (radio_test_round_trip initial)
    as (_ & _ & Ht1 & _ & Ht2 & Hflag & Hrest); [repeat split | reflexivity |].
  split; [exact Hflag|]. split; [exact Hrest|].
  unfold pin_level. rewrite Ht2, pin_after_app. reflexivity.
Defined.
